(** * eaarl.analyze: waveform records to points

    A shallow embedding of [eaarl/analyze.py] and the properties of its
    threshold filter, channel selector, centroid estimator and position
    deriver.

    Conventions of the embedding.
    - A waveform is a list of integer samples ([list Z]), the digitised
      counts of the receiver, together with the element type of the array
      that holds them.  [wf - wf[0]] is computed in that type: it wraps on a
      fixed-width type ([uint8]), and is the plain difference for a
      sequence of Python integers ([exact]: NumPy's 64-bit integers, which
      counts of a digitiser do not overflow).
    - [astype(float)] and the arithmetic after it are taken over the
      rationals.  The sums and products are integers, and exact in binary64
      for such counts; the quotient and the subtraction of 1 are each
      rounded by binary64 and are exact here.  A returned number is kept in
      lowest terms ([Qred]), which makes [=] on results numeric equality.
    - A Python exception is a value of [exn]; a function that can raise
      returns an [outcome].
    - A [pandas.DataFrame] is a list of pulse records (one per row, the raw
      fields) together with the columns the pipeline adds, by name.  The
      names it adds end in [_pos] or [_range], so none is a raw field.
    - Keyword arguments are plain arguments; their defaults are constants. *)

From Stdlib Require Import ZArith QArith Qreduction Qcanon Lia Lqa.
From stdpp Require Import base option list gmap strings sorting.

Local Open Scope Z_scope.

(** ** Exceptions and outcomes *)

Inductive exn : Type :=
  | IndexError                 (* index 0 is out of bounds for axis 0 with size 0 *)
  | KeyError (column : string) (* frame[column] on a missing column *)
  | ValueError (msg : string).

Inductive outcome (A : Type) : Type :=
  | Returns (a : A)
  | Raises (e : exn).
Arguments Returns {A} a.
Arguments Raises {A} e.

#[global] Instance outcome_ret : MRet outcome := fun A a => Returns a.
#[global] Instance outcome_bind : MBind outcome := fun A B k m =>
  match m with
  | Returns a => k a
  | Raises e => Raises e
  end.

(** The message of the selector's own sanity test, and the one NumPy gives
    when two shapes cannot be broadcast together.  Both are [ValueError]s in
    Python; the message tells them apart. *)
Definition not_sorted : exn := ValueError "frame is not sorted properly".
Definition shape_mismatch : exn := ValueError "operands could not be broadcast together".
Definition length_mismatch : exn := ValueError "Length of values does not match length of index".

(** ** NumPy slices and reductions on one axis *)

(** [a[:stop]]: a negative [stop] counts from the end. *)
Definition slice_to {A} (a : list A) (stop : Z) : list A :=
  if 0 <=? stop then take (Z.to_nat stop) a
  else take (Z.to_nat (Z.of_nat (length a) + stop)) a.

(** [a.sum()] on integers. *)
Definition sum (a : list Z) : Z := foldr Z.add 0 a.

(** [np.arange(start, start + n)]. *)
Definition arange (start : Z) (n : nat) : list Z :=
  (fun i => start + Z.of_nat i) <$> seq 0 n.

(** Truth value of an optional integer: [None] and [0] are false. *)
Definition truthy (limit : option Z) : bool :=
  match limit with
  | Some l => negb (l =? 0)
  | None => false
  end.

(** ** NumPy integer types *)

(** The element type of the array [np.array(wf)].  [exact] stands for a type
    in which the samples and their differences are computed without
    wrap-around: the 64-bit integers NumPy gives a sequence of Python
    integers, for counts of a digitiser.  [uint bits] and [sint bits] are the
    fixed-width types ([uint8], [int16], ...), whose arithmetic wraps. *)
Inductive dtype : Type :=
  | exact
  | uint (bits : Z)
  | sint (bits : Z).

Definition uint8 : dtype := uint 8.

(** The value an integer result takes in the type. *)
Definition wrap (dt : dtype) (z : Z) : Z :=
  match dt with
  | exact => z
  | uint bits => z mod 2 ^ bits
  | sint bits => (z + 2 ^ (bits - 1)) mod 2 ^ bits - 2 ^ (bits - 1)
  end.

(** ** Centroid estimator *)

(** [centroid] on an array of element type [dt]: [wf - wf[0]] is computed in
    that type, before [astype(float)]. *)
Definition centroid_dtype (dt : dtype) (wf : list Z) (limit : option Z) : outcome Q :=
  if decide (length wf = 0%nat) then Returns (-1)%Q
  else
    let wf := if truthy limit then slice_to wf (default 0 limit) else wf in
    (* Remove background energy; wf[0] raises on an empty array *)
    match wf with
    | [] => Raises IndexError
    | wf0 :: _ =>
      let wf := (fun x => wrap dt (x - wf0)) <$> wf in
      (* Avoid divide-by-zero *)
      let sum_power := sum wf in
      if sum_power =? 0 then Returns (-1)%Q
      else
        (* Index from 1 instead of 0 so that the first value has weight *)
        let weighted_idx := zip_with Z.mul wf (arange 1 (length wf)) in
        let weighted_sum := sum weighted_idx in
        Returns (Qred (inject_Z weighted_sum / inject_Z sum_power - 1)%Q)
    end.

(** [centroid] on a sequence of Python integers. *)
Definition centroid (wf : list Z) (limit : option Z) : outcome Q :=
  centroid_dtype exact wf limit.

(** Wrapper around [centroid] for use on arrays ([np.frompyfunc]): one call
    per waveform, the limit broadcast; the first exception ends the call. *)
Definition centroid_array (wfs : list (list Z)) (limit : option Z) : outcome (list Q) :=
  foldr (fun wf rest => c ← centroid wf limit; cs ← rest; Returns (c :: cs))
        (Returns []) wfs.

(** ** Pulse records and frames *)

Record record : Type := mkRecord {
  raster_number : Z;
  pulse_number : Z;
  channel : Z;
  rx : list Z;
  tx : list Z;
  thresh_rx : Z;
  thresh_tx : Z;
  range : Q
}.

(** The raw fields of the rows, and the numeric columns added later
    ([tx_pos], [fs_pos], [fs_range], ...), each a column by name. *)
Record DataFrame : Type := mkFrame {
  rows : list record;
  added : gmap string (list Q)
}.

(** [a[mask]] for a boolean mask on the rows of one axis. *)
Fixpoint mask_select {A} (mask : list bool) (a : list A) : list A :=
  match mask, a with
  | b :: mask, x :: a => if b then x :: mask_select mask a else mask_select mask a
  | _, _ => []
  end.

(** [frame[mask]]: a new frame with the selected rows of every column. *)
Definition getitem_mask (frame : DataFrame) (mask : list bool) : DataFrame :=
  {| rows := mask_select mask (rows frame);
     added := mask_select mask <$> added frame |}.

(** [frame[name]] for an added column. *)
Definition getitem (frame : DataFrame) (name : string) : outcome (list Q) :=
  match added frame !! name with
  | Some col => Returns col
  | None => Raises (KeyError name)
  end.

(** [frame[name] = col]: with one value per row the column is created or
    replaced.  What pandas makes of a value of another length depends on
    the kind of value, which the frame does not show: a list or an array
    raises [ValueError], a Series is aligned on the index.  That case is left
    to [unaligned]. *)
Definition setitem (unaligned : DataFrame -> string -> list Q -> outcome DataFrame)
    (frame : DataFrame) (name : string) (col : list Q) : outcome DataFrame :=
  if decide (length col = length (rows frame))
  then Returns {| rows := rows frame; added := <[name := col]> (added frame) |}
  else unaligned frame name col.

(** The assignment of a list or an array of another length. *)
Definition as_array (frame : DataFrame) (name : string) (col : list Q) : outcome DataFrame :=
  Raises length_mismatch.

(** ** Threshold filter *)

Definition remove_failed_thresh (frame : DataFrame) (rx tx : bool) : DataFrame :=
  let frame :=
    if rx then getitem_mask frame ((fun r => thresh_rx r =? 0) <$> rows frame)
    else frame in
  let frame :=
    if tx then getitem_mask frame ((fun r => thresh_tx r =? 0) <$> rows frame)
    else frame in
  frame.

(** ** Saturation detector and channel selector *)

(** [a[0::3]], by recursion on the array. *)
Fixpoint every3 {A} (a : list A) : list A :=
  match a with
  | [] => []
  | x :: a1 => x :: match a1 with
                    | _ :: _ :: a2 => every3 a2
                    | _ => []
                    end
  end.

(** [a[start::3]]. *)
Definition step3 {A} (start : nat) (a : list A) : list A := every3 (drop start a).

(** The positions [0, 3, 6, ...] of [a] overwritten by the values [v], in
    order (as many as both have). *)
Fixpoint put3 {A} (a v : list A) : list A :=
  match a, v with
  | _ :: a1, y :: v' => y :: match a1 with
                             | p :: q :: a2 => p :: q :: put3 a2 v'
                             | _ => a1
                             end
  | _, _ => a
  end.

Definition cannot_assign : exn := ValueError "could not broadcast input array into shape".

(** [a[start::3] = v]: [v] must have the shape of the slice or be a single
    value, which is then repeated. *)
Definition setitem_step3 {A} (start : nat) (a v : list A) : outcome (list A) :=
  let n := length (step3 start a) in
  if decide (length v = n) then Returns (take start a ++ put3 (drop start a) v)
  else match v with
       | [y] => Returns (take start a ++ put3 (drop start a) (replicate n y))
       | _ => Raises cannot_assign
       end.

(** [np.logical_and] on two one-dimensional arrays, with broadcasting: equal
    lengths, or one of them of length 1. *)
Definition logical_and (a b : list bool) : outcome (list bool) :=
  if decide (length a = length b) then Returns (zip_with andb a b)
  else match a, b with
       | [x], _ => Returns (andb x <$> b)
       | _, [y] => Returns ((fun x => x && y) <$> a)
       | _, _ => Raises shape_mismatch
       end.

Definition logical_not (a : list bool) : list bool := negb <$> a.

(** The vectorised lambda of the selector: within the first [max_samples]
    samples, count those at or above [saturation_value]. *)
Definition check_saturation (max_saturated max_samples saturation_value : Z)
    (rx : list Z) : bool :=
  max_saturated <=?
    sum ((fun x => Z.b2z (saturation_value <=? x)) <$> slice_to rx max_samples).

Definition select_eaarla_channel (frame : DataFrame)
    (max_saturated max_samples saturation_value : Z) : outcome DataFrame :=
  (* Get rid of channel 4; in EAARL-A, it's noise *)
  let frame := getitem_mask frame ((fun r => negb (channel r =? 4)) <$> rows frame) in
  let chan := channel <$> rows frame in
  let raster := raster_number <$> rows frame in
  (* Sanity test on sorting; not perfect, but should catch accidents *)
  if negb (forallb (fun c => c =? 1) (step3 0 chan)) then Raises not_sorted
  else if negb (forallb (fun c => c =? 2) (step3 1 chan)) then Raises not_sorted
  else if negb (forallb (fun c => c =? 3) (step3 2 chan)) then Raises not_sorted
  else if negb (forallb id (zip_with Z.geb (drop 1 raster) (slice_to raster (-1))))
  then Raises not_sorted
  else
    (* Determine which waveforms are saturated *)
    let saturated :=
      check_saturation max_saturated max_samples saturation_value <$> (rx <$> rows frame) in
    (* Use the first non-saturated waveform for each; fallback to the third
       if all are saturated *)
    let keep := logical_not saturated in
    v ← logical_and (logical_not (step3 0 keep)) (step3 1 keep);
    keep ← setitem_step3 1 keep v;
    v ← logical_and (logical_not (step3 0 keep)) (logical_not (step3 1 keep));
    keep ← setitem_step3 2 keep v;
    Returns (getitem_mask frame keep).

(** The defaults of the keyword arguments. *)
Definition default_max_saturated : Z := 5.
Definition default_max_samples : Z := 12.
Definition default_saturation_value : Z := 250.
Definition default_prefix : string := "fs".
Definition default_limit : option Z := Some 12.

(** ** Position deriver *)

Section Deriver.
(** The operations of [eaarl.project], which is not part of this module:
    the calibration ([ops]) is opaque, the projectors update the frame,
    and [target_range] maps the columns [range], [tx_pos], [<prefix>_pos]
    and [channel] to a column of ranges. *)
Context {Ops : Type}.
Variable unaligned : DataFrame -> string -> list Q -> outcome DataFrame.
Variable project_mirror : DataFrame -> Ops -> DataFrame.
Variable target_range : list Q -> list Q -> list Q -> list Z -> Ops -> list Q.
Variable project_point : DataFrame -> Ops -> list Q -> string -> DataFrame.

Definition add_mirror (frame : DataFrame) (ops : Ops) : outcome DataFrame :=
  tx_pos ← centroid_array (tx <$> rows frame) None;
  frame ← setitem unaligned frame "tx_pos" tx_pos;
  Returns (project_mirror frame ops).

Definition add_fs (frame : DataFrame) (ops : Ops) (prefix : string)
    (limit : option Z) : outcome DataFrame :=
  pos ← centroid_array (rx <$> rows frame) limit;
  frame ← setitem unaligned frame (prefix +:+ "_pos") pos;
  tx_pos ← getitem frame "tx_pos";
  pos ← getitem frame (prefix +:+ "_pos");
  rng ← Returns (target_range (range <$> rows frame) tx_pos pos
                               (channel <$> rows frame) ops);
  frame ← setitem unaligned frame (prefix +:+ "_range") rng;
  rng ← getitem frame (prefix +:+ "_range");
  Returns (project_point frame ops rng prefix).
End Deriver.

(** * Vocabulary of the properties *)

(** ** Centroid *)

(** [o] returns a number equal to [v]. *)
Definition returns_value (o : outcome Q) (v : Q) : Prop :=
  exists q, o = Returns q /\ (q == v)%Q.

(** The first [limit] samples of [w], when a limit is given. *)
Definition first_samples (limit : option nat) (w : list Z) : list Z :=
  match limit with
  | Some n => take n w
  | None => w
  end.

(** [w] with its first sample subtracted from every sample. *)
Definition background_removed (w : list Z) : list Z :=
  (fun x => x - nth 0 w 0) <$> w.

(** (sum over i of b[i] * (i+1)) / (sum of b) - 1. *)
Definition weighted_offset (b : list Z) : Q :=
  let weighted := sum (imap (fun i x => x * (Z.of_nat i + 1)) b) in
  (inject_Z weighted / inject_Z (sum b) - 1)%Q.

(** The outcome [o] is the centroid of the considered samples [w]. *)
Definition centroid_of (w : list Z) (o : outcome Q) : Prop :=
  let b := background_removed w in
  (sum b <> 0 -> returns_value o (weighted_offset b)) /\
  (w = [] \/ sum b = 0 -> o = Returns (-1)%Q).

(** [w] with its first sample subtracted from every sample, in the element
    type [dt] of the array. *)
Definition differences (dt : dtype) (w : list Z) : list Z :=
  (fun x => wrap dt (x - nth 0 w 0)) <$> w.

(** The outcome [o] is the centroid of the considered samples [w] of an
    array of element type [dt]. *)
Definition centroid_of_dtype (dt : dtype) (w : list Z) (o : outcome Q) : Prop :=
  let b := differences dt w in
  (sum b <> 0 -> returns_value o (weighted_offset b)) /\
  (w = [] \/ sum b = 0 -> o = Returns (-1)%Q).

(** No difference to the first sample wraps in the element type [dt]. *)
Definition no_wrap (dt : dtype) (w : list Z) : Prop :=
  Forall (fun x => wrap dt (x - nth 0 w 0) = x - nth 0 w 0) w.

(** The samples the code considers: a limit of 0 is no limit. *)
Definition considered (limit : option nat) (w : list Z) : list Z :=
  match limit with
  | Some (S n) => take (S n) w
  | _ => w
  end.

(** What [centroid] computes once the samples to consider are fixed, on an
    array of element type [dt]. *)
Definition centroid_body_dtype (dt : dtype) (wc : list Z) : outcome Q :=
  let b := differences dt wc in
  if sum b =? 0 then Returns (-1)%Q
  else Returns (Qred (inject_Z (sum (zip_with Z.mul b (arange 1 (length b))))
                      / inject_Z (sum b) - 1)%Q).

(** What [centroid] computes once the samples to consider are fixed. *)
Definition centroid_body (wc : list Z) : outcome Q :=
  let b := background_removed wc in
  if sum b =? 0 then Returns (-1)%Q
  else Returns (Qred (inject_Z (sum (zip_with Z.mul b (arange 1 (length b))))
                      / inject_Z (sum b) - 1)%Q).

(** The bound of the specification: a returned value is -1 or lies in
    [[0, len(w) - 1)]. *)
Definition in_half_open_range (w : list Z) (limit : option Z) : Prop :=
  forall q, centroid w limit = Returns q ->
    q = (-1)%Q \/ (0 <= q /\ q < inject_Z (Z.of_nat (length w)) - 1)%Q.

(** No sample of [w] is below its first one. *)
Definition above_background (w : list Z) : Prop :=
  Forall (fun x => nth 0 w 0 <= x) w.

(** ** Threshold filter *)

(** A record passes the checks that are switched on. *)
Definition passes (rx tx : bool) (r : record) : Prop :=
  (rx = true -> thresh_rx r = 0) /\ (tx = true -> thresh_tx r = 0).

#[global] Instance passes_dec rx tx r : Decision (passes rx tx r).
Proof. unfold passes. apply _. Defined.

(** ** Triplets and the selector *)

(** The rows of a sequence of (channel 1, channel 2, channel 3) triplets. *)
Fixpoint triplet_rows {A} (ts : list (A * A * A)) : list A :=
  match ts with
  | [] => []
  | (a, b, c) :: ts => a :: b :: c :: triplet_rows ts
  end.

Definition map3 {A B} (f : A -> B) (t : A * A * A) : B * B * B :=
  let '(a, b, c) := t in (f a, f b, f c).

Definition set2 {A} (t : A * A * A) (y : A) : A * A * A := let '(a, _, c) := t in (a, y, c).
Definition set3 {A} (t : A * A * A) (y : A) : A * A * A := let '(a, b, _) := t in (a, b, y).

Ltac list_lengths :=
  repeat (rewrite length_zip_with || rewrite length_fmap); lia.

(** The sanity test, on the channel and raster columns. *)
Definition sanity (chan raster : list Z) : bool :=
  forallb (fun c => c =? 1) (step3 0 chan) &&
  forallb (fun c => c =? 2) (step3 1 chan) &&
  forallb (fun c => c =? 3) (step3 2 chan) &&
  forallb id (zip_with Z.geb (drop 1 raster) (slice_to raster (-1))).

(** The mask of rows to keep, from the saturation flags. *)
Definition keep_mask (saturated : list bool) : outcome (list bool) :=
  let keep := logical_not saturated in
  v ← logical_and (logical_not (step3 0 keep)) (step3 1 keep);
  keep ← setitem_step3 1 keep v;
  v ← logical_and (logical_not (step3 0 keep)) (logical_not (step3 1 keep));
  setitem_step3 2 keep v.

(** The frame without its channel 4 rows. *)
Definition without_channel4 (frame : DataFrame) : DataFrame :=
  getitem_mask frame ((fun r => negb (channel r =? 4)) <$> rows frame).

(** Which of a triplet's rows are kept, from its three saturation flags. *)
Definition policy (s : bool * bool * bool) : bool * bool * bool :=
  let '(s1, s2, _) := s in (negb s1, s1 && negb s2, s1 && s2).

(** Every position holds the channel of its place in the triplet. *)
Definition aligned (chan : list Z) : Prop :=
  forall i c, chan !! i = Some c -> c = Z.of_nat (i mod 3) + 1.

(** No raster number is below the one before it. *)
Definition raster_sorted (raster : list Z) : Prop :=
  forall i a b, raster !! i = Some a -> raster !! S i = Some b -> a <= b.

(** The precondition of the selector: once the channel 4 rows are gone the
    frame is the rows of the triplets [ts], each triplet holds the channels
    1, 2 and 3 in that order, and the raster numbers never decrease.  (That
    the three rows of a triplet belong to one pulse, and the order of the
    pulse numbers, play no part in what follows.) *)
Definition grouped (frame : DataFrame) (ts : list (record * record * record)) : Prop :=
  filter (fun r => channel r <> 4) (rows frame) = triplet_rows ts /\
  Forall (fun t => channel t.1.1 = 1 /\ channel t.1.2 = 2 /\ channel t.2 = 3) ts /\
  raster_sorted (raster_number <$> triplet_rows ts).

(** The receive waveform of the record is saturated. *)
Definition saturated (max_saturated max_samples saturation_value : Z)
    (r : record) : bool :=
  check_saturation max_saturated max_samples saturation_value (rx r).

(** The policy of the specification: channel 1 unless saturated, else
    channel 2 unless saturated, else channel 3. *)
Definition choose (max_saturated max_samples saturation_value : Z)
    (t : record * record * record) : record :=
  let '(r1, r2, r3) := t in
  if negb (saturated max_saturated max_samples saturation_value r1) then r1
  else if negb (saturated max_saturated max_samples saturation_value r2) then r2
  else r3.

(** ** Saturation detector *)

(** The number of samples among the first [head_window] whose value is at
    least [saturation_value]. *)
Definition saturated_samples (head_window : nat) (saturation_value : Z)
    (w : list Z) : nat :=
  length (filter (fun x => saturation_value <= x) (take head_window w)).

(** ** Position deriver *)

(** [frame] with the added column [name] set to [col]. *)
Definition with_column (frame : DataFrame) (name : string) (col : list Q) : DataFrame :=
  mkFrame (rows frame) (<[name := col]> (added frame)).

(** [pos] holds, row by row, the centroid of the waveform [wave] of the row. *)
Definition centroids_of (wave : record -> list Z) (limit : option Z)
    (frame : DataFrame) (pos : list Q) : Prop :=
  Forall2 (fun r q => centroid (wave r) limit = Returns q) (rows frame) pos.

(** ** Further vocabulary *)

(** A flat waveform at level [c] with one sample raised by [h] at index
    [i], followed by [m] more flat samples. *)
Definition impulse (i : nat) (c h : Z) (m : nat) : list Z :=
  replicate i c ++ (c + h) :: replicate m c.

(** [frame[mask]] for the mask of a test on the rows. *)
Definition frame_filter (p : record -> bool) (frame : DataFrame) : DataFrame :=
  getitem_mask frame (p <$> rows frame).

(** Every added column has one value per row. *)
Definition columns_aligned (frame : DataFrame) : Prop :=
  forall name col, added frame !! name = Some col -> length col = length (rows frame).

(** The rows of [frame], each with its value in the added column [name]
    (as many as both have). *)
Definition row_values (frame : DataFrame) (name : string) : list (record * Q) :=
  zip (rows frame) (default [] (added frame !! name)).

(** The last character of a string. *)
Fixpoint string_last (s : string) : option Ascii.ascii :=
  match s with
  | EmptyString => None
  | String a EmptyString => Some a
  | String _ s' => string_last s'
  end.

(** * Properties *)

(** ** Slices and sums *)

Lemma slice_to_nat {A} (a : list A) (n : nat) : slice_to a (Z.of_nat n) = take n a.
Proof.
  unfold slice_to. destruct (Z.leb_spec 0 (Z.of_nat n)); [|lia].
  by rewrite Nat2Z.id.
Qed.

Lemma slice_to_fmap {A B} (f : A -> B) (a : list A) (stop : Z) :
  slice_to (f <$> a) stop = f <$> slice_to a stop.
Proof. unfold slice_to. rewrite length_fmap. by destruct (0 <=? stop); rewrite fmap_take. Qed.

(** A slice from the start is a prefix. *)
Lemma slice_to_take {A} (a : list A) (stop : Z) : exists n, slice_to a stop = take n a.
Proof. unfold slice_to. destruct (0 <=? stop); eauto. Qed.

Lemma slice_to_nil_inv {A} (a : list A) (stop : Z) :
  a <> [] -> slice_to a stop = [] -> stop <= 0.
Proof.
  unfold slice_to. intros Ha.
  destruct (Z.leb_spec 0 stop) as [Hs|Hs]; [|lia].
  destruct a as [|x a]; [done|].
  destruct (Z.to_nat stop) as [|n] eqn:E; [lia|done].
Qed.

Lemma arange_S (start : Z) (n : nat) :
  arange start (S n) = start :: arange (start + 1) n.
Proof.
  unfold arange. cbn [seq fmap list_fmap]. f_equal; [lia|].
  rewrite <- seq_shift, <- list_fmap_compose.
  apply list_fmap_ext. intros _ i _. cbn. lia.
Qed.

(** The weights of the code, position by position. *)
Lemma weighted_idx_imap (b : list Z) (start : Z) :
  zip_with Z.mul b (arange start (length b))
  = imap (fun i x => x * (start + Z.of_nat i)) b.
Proof.
  revert start. induction b as [|x b IH]; intros start; [done|].
  cbn [length]. rewrite arange_S. cbn [zip_with imap]. f_equal; [f_equal; lia|].
  rewrite IH. apply imap_ext. intros i y _. cbn. f_equal. lia.
Qed.

Lemma sum_cons (x : Z) (a : list Z) : sum (x :: a) = x + sum a.
Proof. reflexivity. Qed.

(** Between [start] and [start + length b - 1] times the energy, when no
    sample is negative. *)
Lemma weighted_sum_bounds (b : list Z) (start : Z) :
  Forall (fun x => 0 <= x) b -> 0 <= start ->
  0 <= sum b /\
  start * sum b <= sum (zip_with Z.mul b (arange start (length b)))
    <= (start + Z.of_nat (length b) - 1) * sum b.
Proof.
  intros Hb. revert start. induction Hb as [|x b Hx Hb IH]; intros start Hs.
  - cbn. lia.
  - cbn [length]. rewrite arange_S. cbn [zip_with]. rewrite !sum_cons.
    destruct (IH (start + 1) ltac:(lia)) as (H0 & Hlo & Hhi).
    rewrite Nat2Z.inj_succ. nia.
Qed.

(** ** Centroid estimator *)

Lemma centroid_nonempty (w : list Z) (limit : option nat) :
  w <> [] ->
  considered limit w <> [] /\
  centroid w (Z.of_nat <$> limit) = centroid_body (considered limit w).
Proof.
  intros Hw. destruct w as [|x w]; [done|clear Hw].
  unfold centroid, centroid_dtype. cbn [length wrap]. destruct (decide _) as [|_]; [done|].
  destruct limit as [[|n]|]; cbn [fmap option_fmap option_map truthy considered].
  - done.
  - replace (Z.of_nat (S n) =? 0) with false by (symmetry; apply Z.eqb_neq; lia).
    cbn [negb default from_option id]. rewrite slice_to_nat. done.
  - done.
Qed.

Lemma centroid_body_of (wc : list Z) : wc <> [] -> centroid_of wc (centroid_body wc).
Proof.
  intros Hwc. unfold centroid_of, centroid_body. cbv zeta.
  destruct (Z.eqb_spec (sum (background_removed wc)) 0) as [E|E]; split.
  - done.
  - done.
  - intros _. eexists; split; [done|]. rewrite Qred_correct.
    unfold weighted_offset. cbv zeta. rewrite weighted_idx_imap.
    erewrite imap_ext; [reflexivity|]. intros i x _. cbn. lia.
  - intros [->|]; done.
Qed.

Lemma wrap_0 (dt : dtype) : wrap dt 0 = 0.
Proof.
  destruct dt as [|bits|bits]; cbn [wrap]; [done|apply Zmod_0_l|].
  destruct (Z.le_gt_cases bits 0) as [Hb|Hb].
  - rewrite (Z.pow_neg_r 2 (bits - 1)) by lia. rewrite Zmod_0_l. lia.
  - rewrite Z.mod_small; [lia|]. split; [apply Z.add_nonneg_nonneg; [lia|apply Z.pow_nonneg; lia]|].
    cbn [Z.add]. apply Z.pow_lt_mono_r; lia.
Qed.

Lemma centroid_dtype_nonempty (dt : dtype) (w : list Z) (limit : option nat) :
  w <> [] ->
  considered limit w <> [] /\
  centroid_dtype dt w (Z.of_nat <$> limit) = centroid_body_dtype dt (considered limit w).
Proof.
  intros Hw. destruct w as [|x w]; [done|clear Hw].
  unfold centroid_dtype. cbn [length]. destruct (decide _) as [|_]; [done|].
  destruct limit as [[|n]|]; cbn [fmap option_fmap option_map truthy considered].
  - done.
  - replace (Z.of_nat (S n) =? 0) with false by (symmetry; apply Z.eqb_neq; lia).
    cbn [negb default from_option id]. rewrite slice_to_nat. done.
  - done.
Qed.

Lemma centroid_body_dtype_of (dt : dtype) (wc : list Z) :
  wc <> [] -> centroid_of_dtype dt wc (centroid_body_dtype dt wc).
Proof.
  intros Hwc. unfold centroid_of_dtype, centroid_body_dtype. cbv zeta.
  destruct (Z.eqb_spec (sum (differences dt wc)) 0) as [E|E]; split.
  - done.
  - done.
  - intros _. eexists; split; [done|]. rewrite Qred_correct.
    unfold weighted_offset. cbv zeta. rewrite weighted_idx_imap.
    erewrite imap_ext; [reflexivity|]. intros i x _. cbn. lia.
  - intros [->|]; done.
Qed.

(** C1, as the code has it: for every waveform [w], given as an array of an
    integer element type [dt], and every limit that is absent or a sample
    count, let [w'] be [w] cut to its first [limit] samples when the limit
    is positive, and [w] itself when the limit is absent or 0, and let [b]
    be [w'] minus its first sample, the differences taken in the element
    type (on [uint8] they wrap modulo 256; for a sequence of Python
    integers they are the plain differences).  If the sum of [b] is
    nonzero, [centroid w limit] is (sum of b[i] * (i+1)) / (sum of b) - 1;
    if [w] is empty or the sum of [b] is zero it is the sentinel -1.  In
    particular [centroid [] = -1], [centroid [5,5,5] = -1] and
    [centroid [0,10,0] = 1]. *)
Theorem centroid_weighted_offset :
  (forall (dt : dtype) (w : list Z) (limit : option nat),
     centroid_of_dtype dt (considered limit w)
       (centroid_dtype dt w (Z.of_nat <$> limit))) /\
  (forall (w : list Z) (limit : option nat),
     centroid_of (considered limit w) (centroid w (Z.of_nat <$> limit))) /\
  (forall dt, centroid_dtype dt [] None = Returns (-1)%Q /\
              centroid_dtype dt [5; 5; 5] None = Returns (-1)%Q) /\
  centroid [] None = Returns (-1)%Q /\
  centroid [5; 5; 5] None = Returns (-1)%Q /\
  centroid [0; 10; 0] None = Returns 1%Q /\
  centroid_dtype uint8 [0; 10; 0] None = Returns 1%Q.
Proof.
  assert (forall (dt : dtype) (w : list Z) (limit : option nat),
     centroid_of_dtype dt (considered limit w)
       (centroid_dtype dt w (Z.of_nat <$> limit))) as H.
  { intros dt w limit. destruct (decide (w = [])) as [->|Hw].
    - replace (considered limit []) with (@nil Z) by (by destruct limit as [[|n]|]).
      split; [done|]. by destruct limit.
    - destruct (centroid_dtype_nonempty dt w limit Hw) as [Hc ->].
      by apply centroid_body_dtype_of. }
  split; [exact H|]. split; [exact (H exact)|]. split; [|by repeat split].
  intros dt. split; [done|].
  destruct (H dt [5; 5; 5] None) as [_ H5]. apply H5. right.
  change (differences dt (considered None [5; 5; 5]))
    with [wrap dt 0; wrap dt 0; wrap dt 0].
  by rewrite wrap_0.
Qed.

(** C1 as the specification words it (the waveform cut to its first
    [limit] samples whenever a limit is given) fails for a limit of 0: no
    sample is left, so the sentinel is promised, while the code ignores the
    limit and returns the centroid of the whole waveform. *)
Lemma centroid_limit_zero_not_first_samples :
  ~ centroid_of (first_samples (Some 0%nat) [0; 10; 0])
                (centroid [0; 10; 0] (Z.of_nat <$> Some 0%nat)).
Proof. intros [_ H]. by specialize (H (or_introl eq_refl)). Qed.

(** C1 as the specification words it fails in two ways: for a limit of 0
    (above), and on an array of a fixed-width type, where the differences
    to the first sample wrap.  On the [uint8] array [[10, 0, 30]] the plain
    differences [[0, -10, 20]] promise 40/10 - 1 = 3, while the code works
    with [[0, 246, 20]] and returns 552/266 - 1. *)
Lemma centroid_not_as_worded :
  ~ centroid_of (first_samples (Some 0%nat) [0; 10; 0])
                (centroid [0; 10; 0] (Z.of_nat <$> Some 0%nat)) /\
  ~ centroid_of (first_samples None [10; 0; 30])
                (centroid_dtype uint8 [10; 0; 30] None) /\
  centroid_dtype uint8 [10; 0; 30] None = Returns (143 # 133).
Proof.
  split; [|split; [|reflexivity]].
  - intros [_ H]. by specialize (H (or_introl eq_refl)).
  - intros [H _]. destruct H as (q & Hq & Hv); [by vm_compute|].
    injection Hq as <-. vm_compute in Hv. done.
Qed.

(** The code, with the part after the truncation named. *)
Lemma centroid_unfold (w : list Z) (limit : option Z) :
  centroid w limit =
  if decide (length w = 0%nat) then Returns (-1)%Q
  else match (if truthy limit then slice_to w (default 0 limit) else w) with
       | [] => Raises IndexError
       | x :: wc => centroid_body (x :: wc)
       end.
Proof.
  unfold centroid, centroid_dtype. cbn [wrap]. destruct (decide _); [done|]. cbv zeta.
  by destruct (if truthy limit then _ else _).
Qed.

Lemma background_removed_shift (c : Z) (w : list Z) :
  background_removed ((fun x => x + c) <$> w) = background_removed w.
Proof.
  unfold background_removed. destruct w as [|x w]; [done|].
  cbn [fmap list_fmap nth]. f_equal; [lia|].
  rewrite <- list_fmap_compose. apply list_fmap_ext. intros _ y _. cbn. lia.
Qed.

(** C9: a limit of 0 is tested for truth, not for presence, so it cuts
    nothing: [centroid w 0] is [centroid w None]. *)
Theorem centroid_limit_zero (w : list Z) : centroid w (Some 0) = centroid w None.
Proof. reflexivity. Qed.

(** C10: adding a constant to every sample leaves the centroid unchanged,
    whatever the limit (the outcome is the same, an exception included). *)
Theorem centroid_shift_invariant (w : list Z) (limit : option Z) (c : Z) :
  centroid ((fun x => x + c) <$> w) limit = centroid w limit.
Proof.
  rewrite !centroid_unfold, length_fmap.
  destruct (decide (length w = 0%nat)); [done|].
  assert (forall wc : list Z,
    match (fun x => x + c) <$> wc with
    | [] => Raises IndexError
    | x :: wc' => centroid_body (x :: wc')
    end = match wc with [] => Raises IndexError | x :: wc' => centroid_body (x :: wc') end) as H.
  { intros [|x wc]; [done|].
    change (centroid_body ((fun x => x + c) <$> x :: wc) = centroid_body (x :: wc)).
    unfold centroid_body. by rewrite background_removed_shift. }
  destruct (truthy limit); [rewrite slice_to_fmap|]; apply H.
Qed.

Lemma ratio_bounds (W S n : Z) :
  0 < S -> S <= W <= n * S ->
  (0 <= inject_Z W / inject_Z S - 1 <= inject_Z n - 1)%Q.
Proof.
  intros HS [Hlo Hhi].
  assert (0 < inject_Z S)%Q as HSq by (rewrite <- (Zlt_Qlt 0); lia).
  assert (1 <= inject_Z W / inject_Z S)%Q.
  { apply Qle_shift_div_l; [done|]. rewrite Qmult_1_l, <- Zle_Qle. lia. }
  assert (inject_Z W / inject_Z S <= inject_Z n)%Q.
  { apply Qle_shift_div_r; [done|]. rewrite <- inject_Z_mult, <- Zle_Qle. lia. }
  split; lra.
Qed.

Lemma centroid_body_bounds (x : Z) (wc : list Z) (n : Z) :
  above_background (x :: wc) -> Z.of_nat (length (x :: wc)) <= n ->
  exists q, centroid_body (x :: wc) = Returns q /\
    (q = (-1)%Q \/ (0 <= q <= inject_Z n - 1)%Q).
Proof.
  intros Hbg Hn. unfold centroid_body. cbv zeta.
  set (b := background_removed (x :: wc)).
  assert (Forall (fun y => 0 <= y) b) as Hb.
  { subst b. unfold background_removed. apply Forall_fmap.
    eapply Forall_impl; [exact Hbg|]. intros y Hy. cbn in *. lia. }
  assert (length b = length (x :: wc)) as Hlen by (subst b; apply length_fmap).
  destruct (weighted_sum_bounds b 1 Hb ltac:(lia)) as (H0 & Hlo & Hhi).
  destruct (Z.eqb_spec (sum b) 0) as [E|E]; eexists; (split; [done|]); [by left|right].
  rewrite Qred_correct.
  destruct (ratio_bounds (sum (zip_with Z.mul b (arange 1 (length b)))) (sum b) n) as [? ?];
    [lia|nia|done].
Qed.

(** C2, as the code has it: when no sample of [w] is below its first sample,
    [centroid w limit] returns -1 or a value in the closed interval
    [[0, len(w) - 1]], for every limit that is absent or not negative.  (A
    negative limit can leave no sample at all, and then the call raises.) *)
Theorem centroid_in_closed_range (w : list Z) (limit : option Z) :
  above_background w ->
  match centroid w limit with
  | Returns q =>
      q = (-1)%Q \/ (0 <= q <= inject_Z (Z.of_nat (length w)) - 1)%Q
  | Raises e => e = IndexError /\ exists l, limit = Some l /\ l < 0
  end.
Proof.
  intros Hbg. rewrite centroid_unfold. destruct (decide _); [by left|].
  destruct (truthy limit) eqn:Ht.
  - destruct limit as [l|]; [|done]. cbn in Ht. cbn [default from_option id].
    destruct (slice_to w l) as [|x wc] eqn:Hs.
    + split; [done|]. exists l. split; [done|].
      assert (w <> []) as Hw by (by intros ->).
      pose proof (slice_to_nil_inv w l Hw Hs). destruct (Z.eqb_spec l 0); [done|lia].
    + destruct (slice_to_take w l) as [k Hk]. rewrite Hs in Hk.
      destruct (centroid_body_bounds x wc (Z.of_nat (length w))) as (q & -> & Hq); [| |done].
      * destruct w as [|y w]; [by destruct k|]. destruct k as [|k]; [done|].
        injection Hk as -> Hwc. unfold above_background in *. cbn [nth] in *.
        change (y :: wc) with ([y] ++ wc). rewrite Hwc.
        change ([y] ++ take k w) with (take (S k) (y :: w)). by apply Forall_take.
      * rewrite Hk, length_take. lia.
  - destruct w as [|x wc]; [done|].
    destruct (centroid_body_bounds x wc (Z.of_nat (length (x :: wc)))) as (q & -> & Hq);
      [done|lia|done].
Qed.

Lemma centroid_in_closed_range_witness :
  above_background [0; 0; 10] /\
  match centroid [0; 0; 10] (Some 12) with
  | Returns q => q = (-1)%Q \/ (0 <= q <= inject_Z (Z.of_nat (length [0; 0; 10])) - 1)%Q
  | Raises e => e = IndexError /\ exists l, Some 12 = Some l /\ l < 0
  end.
Proof.
  assert (above_background [0; 0; 10]) as H.
  { unfold above_background. cbn. repeat constructor; lia. }
  split; [exact H|]. exact (centroid_in_closed_range [0; 0; 10] (Some 12) H).
Defined.

(** C2 as the specification words it fails: a waveform whose energy sits in
    its last sample has its centroid at [len(w) - 1], the excluded end of the
    interval. *)
Lemma centroid_reaches_last_index : ~ in_half_open_range [0; 0; 10] None.
Proof.
  intros H. destruct (H 2%Q eq_refl) as [E|[_ E]]; [done|].
  vm_compute in E. done.
Qed.

Example centroid_below_background : centroid [10; 0; 30] None = Returns 3%Q.
Proof. reflexivity. Qed.
Example centroid_negative : centroid [0; 10; -9] None = Returns (-8)%Q.
Proof. reflexivity. Qed.
Example centroid_no_sample_left : centroid [7] (Some (-1)) = Raises IndexError.
Proof. reflexivity. Qed.

(** ** Boolean masks *)

Lemma Is_true_eqb (a b : Z) : Is_true (a =? b) <-> a = b.
Proof. rewrite Is_true_true. apply Z.eqb_eq. Qed.

Lemma mask_select_fmap {A} (p : A -> bool) (a : list A) :
  mask_select (p <$> a) a = filter (fun x => p x) a.
Proof.
  induction a as [|x a IH]; [done|]. cbn [fmap list_fmap mask_select].
  rewrite filter_cons. fold (fmap p a). rewrite IH.
  by destruct (p x).
Qed.

Lemma mask_select_sublist {A} (mask : list bool) (a : list A) :
  mask_select mask a `sublist_of` a.
Proof.
  revert a. induction mask as [|b mask IH]; intros [|x a]; cbn;
    try apply sublist_nil_l.
  destruct b; [apply sublist_skip|apply sublist_cons]; apply IH.
Qed.

Lemma sublist_Forall {A} (P : A -> Prop) (l1 l2 : list A) :
  l1 `sublist_of` l2 -> Forall P l2 -> Forall P l1.
Proof.
  intros Hs. rewrite !Forall_forall. intros H x Hx.
  apply H. by eapply elem_of_sublist.
Qed.

(** ** Threshold filter *)

(** C6: the threshold filter keeps exactly the records that pass the checks
    switched on, both when both are on; with [rx] off it keeps the records
    with [thresh_tx = 0] whatever their [thresh_rx]; the records kept are
    records of the input, in the input's order; and with both checks off the
    frame is returned as it is. *)
Theorem remove_failed_thresh_keeps (frame : DataFrame) (rx tx : bool) :
  rows (remove_failed_thresh frame rx tx) = filter (passes rx tx) (rows frame) /\
  rows (remove_failed_thresh frame true true)
    = filter (fun r => thresh_rx r = 0 /\ thresh_tx r = 0) (rows frame) /\
  rows (remove_failed_thresh frame false true)
    = filter (fun r => thresh_tx r = 0) (rows frame) /\
  rows (remove_failed_thresh frame rx tx) `sublist_of` rows frame /\
  remove_failed_thresh frame false false = frame.
Proof.
  assert (forall rx tx,
    rows (remove_failed_thresh frame rx tx) = filter (passes rx tx) (rows frame)) as H.
  { clear. intros rx tx. unfold remove_failed_thresh, passes.
    destruct rx, tx; cbn [rows getitem_mask]; rewrite ?mask_select_fmap, ?list_filter_filter.
    - apply list_filter_iff. intros r. rewrite !Is_true_eqb. intuition.
    - apply list_filter_iff. intros r. rewrite !Is_true_eqb. intuition congruence.
    - apply list_filter_iff. intros r. rewrite !Is_true_eqb. intuition congruence.
    - induction (rows frame) as [|r l IH]; [done|].
      rewrite filter_cons_True by done. by f_equal. }
  split; [apply H|]. split; [|split; [|split]].
  - rewrite H. apply list_filter_iff. unfold passes. intuition.
  - rewrite H. apply list_filter_iff. unfold passes. intuition congruence.
  - rewrite H. apply sublist_filter.
  - reflexivity.
Qed.

Example remove_failed_thresh_mixed :
  let r (a b : Z) := mkRecord 1 1 1 [] [] a b 0 in
  let frame := mkFrame [r 0 0; r 1 0; r 0 1; r 1 1; r 0 0] ∅ in
  rows (remove_failed_thresh frame true true) = [r 0 0; r 0 0] /\
  rows (remove_failed_thresh frame false true) = [r 0 0; r 1 0; r 0 0] /\
  rows (remove_failed_thresh frame true false) = [r 0 0; r 0 1; r 0 0].
Proof. cbv zeta. repeat split. Qed.

(** ** Frames made of triplets *)

Lemma fmap_triplet_rows {A B} (f : A -> B) (ts : list (A * A * A)) :
  f <$> triplet_rows ts = triplet_rows (map3 f <$> ts).
Proof. induction ts as [|[[a b] c] ts IH]; [done|]. cbn. by rewrite <- IH. Qed.

Lemma length_triplet_rows {A} (ts : list (A * A * A)) :
  length (triplet_rows ts) = (3 * length ts)%nat.
Proof. induction ts as [|[[a b] c] ts IH]; [done|]. cbn [triplet_rows length]. lia. Qed.

Lemma step3_0_triplets {A} (ts : list (A * A * A)) :
  step3 0 (triplet_rows ts) = (fun t => t.1.1) <$> ts.
Proof.
  unfold step3. cbn [drop].
  induction ts as [|[[a b] c] ts IH]; [done|]. cbn. by f_equal.
Qed.

Lemma step3_1_triplets {A} (ts : list (A * A * A)) :
  step3 1 (triplet_rows ts) = (fun t => t.1.2) <$> ts.
Proof.
  unfold step3.
  induction ts as [|[[a b] c] ts IH]; [done|].
  cbn. f_equal. destruct ts as [|[[a' b'] c'] ts]; [done|]. exact IH.
Qed.

Lemma step3_2_triplets {A} (ts : list (A * A * A)) :
  step3 2 (triplet_rows ts) = (fun t => t.2) <$> ts.
Proof.
  unfold step3.
  induction ts as [|[[a b] c] ts IH]; [done|].
  cbn. f_equal. destruct ts as [|[[a' b'] c'] ts]; [done|]. exact IH.
Qed.

Lemma put3_1_triplets {A} (ks : list (A * A * A)) (v : list A) :
  length v = length ks ->
  put3 (drop 1 (triplet_rows ks)) v = drop 1 (triplet_rows (zip_with set2 ks v)).
Proof.
  revert v. induction ks as [|[[a b] c] ks IH]; intros [|y v] Hlen; try done.
  injection Hlen as Hlen. specialize (IH v Hlen).
  destruct ks as [|[[a' b'] c'] ks]; destruct v as [|y' v]; try done.
  cbn in *. by rewrite IH.
Qed.

Lemma put3_2_triplets {A} (ks : list (A * A * A)) (v : list A) :
  length v = length ks ->
  put3 (drop 2 (triplet_rows ks)) v = drop 2 (triplet_rows (zip_with set3 ks v)).
Proof.
  revert v. induction ks as [|[[a b] c] ks IH]; intros [|y v] Hlen; try done.
  injection Hlen as Hlen. specialize (IH v Hlen).
  destruct ks as [|[[a' b'] c'] ks]; destruct v as [|y' v]; try done.
  cbn in *. by rewrite IH.
Qed.

Lemma setitem_step3_1_triplets {A} (ks : list (A * A * A)) (v : list A) :
  length v = length ks ->
  setitem_step3 1 (triplet_rows ks) v = Returns (triplet_rows (zip_with set2 ks v)).
Proof.
  intros Hlen. unfold setitem_step3. cbv zeta.
  rewrite step3_1_triplets, length_fmap, decide_True by done.
  rewrite put3_1_triplets by done.
  destruct ks as [|[[a b] c] ks]; destruct v as [|y v]; done.
Qed.

Lemma setitem_step3_2_triplets {A} (ks : list (A * A * A)) (v : list A) :
  length v = length ks ->
  setitem_step3 2 (triplet_rows ks) v = Returns (triplet_rows (zip_with set3 ks v)).
Proof.
  intros Hlen. unfold setitem_step3. cbv zeta.
  rewrite step3_2_triplets, length_fmap, decide_True by done.
  rewrite put3_2_triplets by done.
  destruct ks as [|[[a b] c] ks]; destruct v as [|y v]; done.
Qed.

Lemma logical_and_same_length (a b : list bool) :
  length a = length b -> logical_and a b = Returns (zip_with andb a b).
Proof. intros H. unfold logical_and. by rewrite decide_True. Qed.

(** ** Channel selector *)

Lemma select_unfold (frame : DataFrame) (max_saturated max_samples saturation_value : Z) :
  select_eaarla_channel frame max_saturated max_samples saturation_value =
  let frame := without_channel4 frame in
  if sanity (channel <$> rows frame) (raster_number <$> rows frame)
  then keep ← keep_mask (check_saturation max_saturated max_samples saturation_value
                           <$> (rx <$> rows frame));
       Returns (getitem_mask frame keep)
  else Raises not_sorted.
Proof.
  unfold select_eaarla_channel, sanity, keep_mask. cbv zeta.
  fold (without_channel4 frame).
  repeat (destruct (forallb _ _); [|done]). cbn [negb andb].
  repeat (destruct (logical_and _ _); [|done]; cbn [mbind outcome_bind];
          destruct (setitem_step3 _ _ _); [|done]; cbn [mbind outcome_bind]).
  done.
Qed.

Lemma rows_without_channel4 (frame : DataFrame) :
  rows (without_channel4 frame) = filter (fun r => channel r <> 4) (rows frame).
Proof.
  unfold without_channel4. cbn [rows getitem_mask]. rewrite mask_select_fmap.
  apply list_filter_iff. intros r. destruct (Z.eqb_spec (channel r) 4); cbn; tauto.
Qed.

Lemma keep_mask_triplets (ss : list (bool * bool * bool)) :
  keep_mask (triplet_rows ss) = Returns (triplet_rows (policy <$> ss)).
Proof.
  unfold keep_mask, logical_not. cbv zeta.
  rewrite fmap_triplet_rows, step3_0_triplets, step3_1_triplets.
  rewrite logical_and_same_length by list_lengths.
  cbn [mbind outcome_bind].
  rewrite setitem_step3_1_triplets by list_lengths.
  cbn [mbind outcome_bind].
  rewrite step3_0_triplets, step3_1_triplets.
  rewrite logical_and_same_length by list_lengths.
  cbn [mbind outcome_bind].
  rewrite setitem_step3_2_triplets by list_lengths.
  do 2 f_equal. induction ss as [|[[s1 s2] s3] ss IH]; [done|].
  cbn in *. f_equal; [by destruct s1, s2|exact IH].
Qed.

(** *** The sanity test *)

Lemma every3_lookup {A} (a : list A) (i : nat) : every3 a !! i = a !! (3 * i)%nat.
Proof.
  revert a. induction i as [|i IH]; intros a.
  - by destruct a.
  - replace (3 * S i)%nat with (S (S (S (3 * i)))) by lia.
    destruct a as [|x [|y [|z a]]]; try done. cbn. apply IH.
Qed.

Lemma step3_lookup {A} (start : nat) (a : list A) (i : nat) :
  step3 start a !! i = a !! (start + 3 * i)%nat.
Proof. unfold step3. by rewrite every3_lookup, lookup_drop. Qed.

Lemma forallb_step3 (k : Z) (start : nat) (chan : list Z) :
  forallb (fun c => c =? k) (step3 start chan) = true <->
  forall i c, chan !! (start + 3 * i)%nat = Some c -> c = k.
Proof.
  rewrite <- Is_true_true, forallb_True, Forall_lookup.
  split; intros H i c Hc.
  - apply Is_true_eqb, (H i). by rewrite step3_lookup.
  - apply Is_true_eqb, (H i). by rewrite <- step3_lookup.
Qed.

Lemma mod3_offset (k i : nat) : (k < 3)%nat -> ((k + 3 * i) mod 3)%nat = k.
Proof.
  intros Hk. replace (3 * i)%nat with (i * 3)%nat by lia.
  rewrite Nat.Div0.mod_add. by apply Nat.mod_small.
Qed.

Lemma aligned_checks (chan : list Z) :
  aligned chan <->
  forallb (fun c => c =? 1) (step3 0 chan) = true /\
  forallb (fun c => c =? 2) (step3 1 chan) = true /\
  forallb (fun c => c =? 3) (step3 2 chan) = true.
Proof.
  rewrite !forallb_step3. unfold aligned. split.
  - intros H. repeat split; intros i c Hc; rewrite (H _ _ Hc);
      by rewrite mod3_offset by lia.
  - intros (H0 & H1 & H2) i c Hc.
    assert (i = (i mod 3 + 3 * (i / 3))%nat) as Hi
      by (pose proof (Nat.div_mod_eq i 3); lia).
    pose proof (Nat.mod_upper_bound i 3 ltac:(lia)) as Hlt.
    destruct (i mod 3)%nat as [|[|[|m]]] eqn:E; [| | |lia]; rewrite Hi in Hc.
    + by apply (H0 (i / 3)%nat).
    + by apply (H1 (i / 3)%nat).
    + by apply (H2 (i / 3)%nat).
Qed.

Lemma raster_check (raster : list Z) :
  forallb id (zip_with Z.geb (drop 1 raster) (slice_to raster (-1))) = true <->
  raster_sorted raster.
Proof.
  rewrite <- Is_true_true, forallb_True, Forall_lookup. unfold raster_sorted, slice_to.
  cbn [Z.leb Z.compare]. setoid_rewrite lookup_zip_with.
  split.
  - intros H i a b Ha Hb.
    assert (Is_true (id (Z.geb b a))) as Hge; [|unfold id in Hge; apply Is_true_true in Hge; lia].
    apply (H i). rewrite lookup_drop. cbn [Nat.add]. rewrite Hb. cbn.
    rewrite lookup_take_lt by (apply lookup_lt_Some in Hb; lia). by rewrite Ha.
  - intros H i x Hx.
    destruct (drop 1 raster !! i) as [b|] eqn:Hb; [|done]. cbn in Hx.
    destruct (take _ raster !! i) as [a|] eqn:Ha; [|done]. cbn in Hx.
    injection Hx as <-. rewrite lookup_drop in Hb. cbn [Nat.add] in Hb.
    apply lookup_take_Some in Ha as [Ha _].
    unfold id. apply Is_true_true. specialize (H i a b Ha Hb). lia.
Qed.

Lemma sanity_spec (chan raster : list Z) :
  sanity chan raster = true <-> aligned chan /\ raster_sorted raster.
Proof.
  unfold sanity. rewrite !andb_true_iff, aligned_checks, raster_check. tauto.
Qed.

(** *** Selection on grouped frames *)

Lemma aligned_triplets (ts : list (record * record * record)) :
  Forall (fun t => channel t.1.1 = 1 /\ channel t.1.2 = 2 /\ channel t.2 = 3) ts ->
  aligned (channel <$> triplet_rows ts).
Proof.
  intros H. apply aligned_checks.
  rewrite fmap_triplet_rows, step3_0_triplets, step3_1_triplets, step3_2_triplets.
  induction H as [|[[a b] c] ts (Ha & Hb & Hc) _ (IH1 & IH2 & IH3)]; [done|].
  cbn in *. rewrite Ha, Hb, Hc. cbn. auto.
Qed.

Section Selector.
Variables max_saturated max_samples saturation_value : Z.
Local Abbreviation saturated := (saturated max_saturated max_samples saturation_value).
Local Abbreviation choose := (choose max_saturated max_samples saturation_value).

Lemma mask_select_policy (ts : list (record * record * record)) :
  mask_select (triplet_rows (policy <$> (map3 saturated <$> ts))) (triplet_rows ts)
  = choose <$> ts.
Proof.
  induction ts as [|[[r1 r2] r3] ts IH]; [done|].
  cbn [fmap list_fmap map3 policy triplet_rows mask_select choose] in *.
  by destruct (saturated r1), (saturated r2); cbn; rewrite IH.
Qed.

Lemma select_grouped (frame : DataFrame) (ts : list (record * record * record)) :
  grouped frame ts ->
  select_eaarla_channel frame max_saturated max_samples saturation_value
  = Returns (getitem_mask (without_channel4 frame)
               (triplet_rows (policy <$> (map3 saturated <$> ts)))).
Proof.
  intros (Hrows & Hchan & Hraster). rewrite select_unfold. cbv zeta.
  rewrite rows_without_channel4, Hrows.
  replace (sanity _ _) with true
    by (symmetry; apply sanity_spec; auto using aligned_triplets).
  rewrite <- list_fmap_compose.
  change (check_saturation max_saturated max_samples saturation_value ∘ rx)
    with saturated.
  by rewrite fmap_triplet_rows, keep_mask_triplets.
Qed.

Lemma choose_sublist (ts : list (record * record * record)) :
  choose <$> ts `sublist_of` triplet_rows ts.
Proof.
  induction ts as [|[[r1 r2] r3] ts IH]; [done|].
  cbn [fmap list_fmap triplet_rows choose].
  destruct (negb (saturated r1)); [|destruct (negb (saturated r2))].
  - by apply sublist_skip, sublist_cons, sublist_cons.
  - by apply sublist_cons, sublist_skip, sublist_cons.
  - by apply sublist_cons, sublist_cons, sublist_skip.
Qed.

(** C3: on a frame that meets the precondition the selector returns, and
    its rows are one record per triplet, in order: channel 1 if its
    receive waveform is not saturated, otherwise channel 2 if that one is
    not saturated, otherwise channel 3, saturated or not. *)
Theorem select_one_per_triplet (frame : DataFrame)
    (ts : list (record * record * record)) :
  grouped frame ts ->
  exists out,
    select_eaarla_channel frame max_saturated max_samples saturation_value
      = Returns out /\
    rows out = choose <$> ts.
Proof.
  intros H. rewrite (select_grouped frame ts H). eexists; split; [done|].
  destruct H as (Hrows & _). cbn [rows getitem_mask].
  rewrite rows_without_channel4, Hrows. apply mask_select_policy.
Qed.

(** C8: on a frame that meets the precondition the rows of the output are
    rows of the input, unchanged and in the input's order, and none of
    them is a channel 4 row. *)
Theorem select_subsequence (frame : DataFrame)
    (ts : list (record * record * record)) :
  grouped frame ts ->
  exists out,
    select_eaarla_channel frame max_saturated max_samples saturation_value
      = Returns out /\
    rows out `sublist_of` rows frame /\
    Forall (fun r => channel r <> 4) (rows out).
Proof.
  intros H. rewrite (select_grouped frame ts H). eexists; split; [done|].
  cbn [rows getitem_mask]. rewrite rows_without_channel4.
  assert (mask_select (triplet_rows (policy <$> (map3 saturated <$> ts)))
            (filter (fun r => channel r <> 4) (rows frame))
          `sublist_of` filter (fun r => channel r <> 4) (rows frame)) as Hs
    by apply mask_select_sublist.
  split.
  - etrans; [exact Hs|]. apply sublist_filter.
  - eapply sublist_Forall; [exact Hs|].
    apply Forall_forall. intros r Hr. by apply list_elem_of_filter in Hr as [? _].
Qed.

(** C4: the selector raises its sort error whenever some position of the
    frame (channel 4 rows apart) does not hold the channel of its place in
    the triplet, as in a frame of channels 1, 3, 2, and whenever a raster
    number is below the one before it; on a frame that meets the
    precondition it raises nothing and returns. *)
Theorem select_sort_error (frame : DataFrame) :
  let checked := rows (without_channel4 frame) in
  let select :=
    select_eaarla_channel frame max_saturated max_samples saturation_value in
  ((exists i c, (channel <$> checked) !! i = Some c /\ c <> Z.of_nat (i mod 3) + 1) ->
     select = Raises not_sorted) /\
  ((exists i a b, (raster_number <$> checked) !! i = Some a /\
                  (raster_number <$> checked) !! S i = Some b /\ b < a) ->
     select = Raises not_sorted) /\
  (channel <$> rows frame = [1; 3; 2] -> select = Raises not_sorted) /\
  (forall ts, grouped frame ts -> exists out, select = Returns out).
Proof.
  cbv zeta. rewrite select_unfold. cbv zeta.
  assert (sanity (channel <$> rows (without_channel4 frame))
                 (raster_number <$> rows (without_channel4 frame)) = false ->
          (if sanity (channel <$> rows (without_channel4 frame))
                     (raster_number <$> rows (without_channel4 frame))
           then keep ← keep_mask (check_saturation max_saturated max_samples
                                    saturation_value
                                    <$> (rx <$> rows (without_channel4 frame)));
                Returns (getitem_mask (without_channel4 frame) keep)
           else Raises not_sorted) = Raises not_sorted) as Hfail
    by (by intros ->).
  repeat split.
  - intros (i & c & Hc & Hne). apply Hfail, not_true_is_false.
    intros [Ha _]%sanity_spec. by apply Hne, Ha.
  - intros (i & a & b & Ha & Hb & Hlt). apply Hfail, not_true_is_false.
    intros [_ Hs]%sanity_spec. specialize (Hs i a b Ha Hb). lia.
  - intros H. apply Hfail, not_true_is_false.
    intros [Ha _]%sanity_spec.
    assert (rows (without_channel4 frame) = rows frame) as E.
    { rewrite rows_without_channel4. destruct (rows frame) as [|r1 [|r2 [|r3 [|]]]];
        try done. injection H as H1 H2 H3.
      rewrite !filter_cons_True, filter_nil by lia. done. }
    rewrite E, H in Ha. specialize (Ha 1%nat 3 eq_refl). done.
  - intros ts H. rewrite <- select_unfold, (select_grouped frame ts H). eauto.
Qed.
End Selector.

Lemma select_one_per_triplet_witness :
  let r (raster ch : Z) (w : list Z) := mkRecord raster 1 ch w [] 0 0 0 in
  let hot := [255; 255; 255; 255; 255; 255] in
  let t1 := (r 1 1 hot, r 1 2 [3; 9; 4], r 1 3 [1; 2; 1]) in
  let t2 := (r 2 1 hot, r 2 2 hot, r 2 3 hot) in
  let t3 := (r 2 1 [5; 60; 7], r 2 2 [1; 6; 1], r 2 3 [0; 1; 0]) in
  let frame := mkFrame (triplet_rows [t1; t2; t3]) ∅ in
  grouped frame [t1; t2; t3] /\
  exists out,
    select_eaarla_channel frame 5 12 250 = Returns out /\
    rows out = choose 5 12 250 <$> [t1; t2; t3].
Proof.
  cbv zeta.
  match goal with |- ?G /\ _ => assert G as H end.
  { split; [reflexivity|]. split; [by repeat constructor|].
    by apply raster_check. }
  split; [exact H|]. exact (select_one_per_triplet 5 12 250 _ _ H).
Defined.

Lemma select_subsequence_witness :
  let r (raster ch : Z) (w : list Z) := mkRecord raster 1 ch w [] 0 0 0 in
  let hot := [255; 255; 255; 255; 255; 255] in
  let t1 := (r 1 1 hot, r 1 2 [3; 9; 4], r 1 3 [1; 2; 1]) in
  let t2 := (r 2 1 hot, r 2 2 hot, r 2 3 hot) in
  let frame :=
    mkFrame (r 1 4 [9; 9] :: triplet_rows [t1] ++ r 1 4 [8; 8] :: triplet_rows [t2]) ∅ in
  grouped frame [t1; t2] /\
  exists out,
    select_eaarla_channel frame 5 12 250 = Returns out /\
    rows out `sublist_of` rows frame /\
    Forall (fun r => channel r <> 4) (rows out).
Proof.
  cbv zeta.
  match goal with |- ?G /\ _ => assert G as H end.
  { split; [reflexivity|]. split; [by repeat constructor|].
    by apply raster_check. }
  split; [exact H|]. exact (select_subsequence 5 12 250 _ _ H).
Defined.

Example select_keeps_channel2_then_channel3 :
  let r (ch : Z) (w : list Z) := mkRecord 1 1 ch w [] 0 0 0 in
  let hot := [255; 255; 255; 255; 255; 255] in
  (rows <$> Some (mkFrame [r 2 [3; 9; 4]] ∅))
    = match select_eaarla_channel (mkFrame [r 1 hot; r 2 [3; 9; 4]; r 3 [1; 2; 1]] ∅) 5 12 250
      with Returns out => Some (rows out) | Raises _ => None end /\
  Some [r 3 hot]
    = match select_eaarla_channel (mkFrame [r 1 hot; r 2 hot; r 3 hot] ∅) 5 12 250
      with Returns out => Some (rows out) | Raises _ => None end.
Proof. cbv zeta. split; reflexivity. Qed.

Example select_rejects_132 :
  let r (ch : Z) := mkRecord 1 1 ch [] [] 0 0 0 in
  select_eaarla_channel (mkFrame [r 1; r 3; r 2] ∅) 5 12 250 = Raises not_sorted.
Proof. reflexivity. Qed.

(** The check is positional only: a frame that is no sequence of triplets
    can pass it (and then fails, or not, on the shapes of the mask). *)
Example select_lone_channel1 :
  let r (ch : Z) := mkRecord 1 1 ch [0; 1; 0] [] 0 0 0 in
  select_eaarla_channel (mkFrame [r 1] ∅) 5 12 250 = Returns (mkFrame [r 1] ∅) /\
  select_eaarla_channel (mkFrame [r 1; r 2; r 3; r 1] ∅) 5 12 250 = Raises cannot_assign.
Proof. cbv zeta. split; reflexivity. Qed.

(** ** Saturation detector *)

Lemma sum_flags (saturation_value : Z) (w : list Z) :
  sum ((fun x => Z.b2z (saturation_value <=? x)) <$> w)
  = Z.of_nat (length (filter (fun x => saturation_value <= x) w)).
Proof.
  induction w as [|x w IH]; [done|].
  rewrite fmap_cons, sum_cons, filter_cons, IH.
  destruct (Z.leb_spec saturation_value x).
  - rewrite decide_True by done. cbn [length Z.b2z]. lia.
  - rewrite decide_False by lia. cbn [Z.b2z]. lia.
Qed.

(** C5: a waveform is classified as saturated exactly when at least
    [max_saturated] of its first [head_window] samples are at or above
    [saturation_value]: so it is with exactly [max_saturated] such samples,
    and it is not with one fewer.  A waveform shorter than the window is
    judged on all of its samples. *)
Theorem check_saturation_threshold (max_saturated : Z) (head_window : nat)
    (saturation_value : Z) (w : list Z) :
  let n := Z.of_nat (saturated_samples head_window saturation_value w) in
  let verdict :=
    check_saturation max_saturated (Z.of_nat head_window) saturation_value w in
  (verdict = true <-> max_saturated <= n) /\
  (n = max_saturated -> verdict = true) /\
  (n = max_saturated - 1 -> verdict = false) /\
  ((length w <= head_window)%nat ->
     verdict = (max_saturated <=?
                Z.of_nat (length (filter (fun x => saturation_value <= x) w)))).
Proof.
  cbv zeta. unfold check_saturation, saturated_samples.
  rewrite slice_to_nat, sum_flags. repeat split.
  - apply Z.leb_le.
  - apply Z.leb_le.
  - intros ->. apply Z.leb_le. lia.
  - intros H. apply Z.leb_gt. lia.
  - intros H. by rewrite take_ge.
Qed.

Example check_saturation_boundary :
  check_saturation 5 12 250 [250; 0; 251; 255; 249; 250; 250; 0] = true /\
  check_saturation 5 12 250 [250; 0; 251; 255; 249; 250; 249; 0] = false /\
  check_saturation 5 12 250 [] = false /\
  check_saturation 2 3 250 [250; 0; 0; 250; 250] = false.
Proof. repeat split. Qed.

(** ** Position deriver *)

Lemma setitem_same_length (unaligned : DataFrame -> string -> list Q -> outcome DataFrame)
    (frame : DataFrame) (name : string) (col : list Q) :
  length col = length (rows frame) ->
  setitem unaligned frame name col = Returns (with_column frame name col).
Proof. intros H. unfold setitem. by rewrite decide_True. Qed.

Lemma getitem_present (frame : DataFrame) (name : string) (col : list Q) :
  added frame !! name = Some col -> getitem frame name = Returns col.
Proof. intros H. unfold getitem. by rewrite H. Qed.

Lemma getitem_with_column (frame : DataFrame) (name : string) (col : list Q) :
  getitem (with_column frame name col) name = Returns col.
Proof. apply getitem_present. cbn. apply lookup_insert_eq. Qed.

(** With no limit, or a limit that is a sample count, the centroid of a
    waveform is always computed. *)
Lemma centroid_returns (w : list Z) (limit : option nat) :
  exists q, centroid w (Z.of_nat <$> limit) = Returns q.
Proof.
  destruct (decide (w = [])) as [->|Hw]; [by exists (-1)%Q; destruct limit|].
  destruct (centroid_nonempty w limit Hw) as [_ ->].
  unfold centroid_body. cbv zeta. destruct (_ =? _); eauto.
Qed.

Lemma centroid_array_returns (wave : record -> list Z) (limit : option nat)
    (frame : DataFrame) :
  exists pos,
    centroid_array (wave <$> rows frame) (Z.of_nat <$> limit) = Returns pos /\
    centroids_of wave (Z.of_nat <$> limit) frame pos.
Proof.
  unfold centroids_of. induction (rows frame) as [|r rs (pos & IH & Hpos)].
  - exists []. by split; [|constructor].
  - destruct (centroid_returns (wave r) limit) as [q Hq].
    exists (q :: pos). split; [|by constructor].
    rewrite fmap_cons. unfold centroid_array in *. cbn [foldr].
    by rewrite Hq, IH.
Qed.

Section DeriverProperties.
Context {Ops : Type}.
Variable unaligned : DataFrame -> string -> list Q -> outcome DataFrame.
Variable project_mirror : DataFrame -> Ops -> DataFrame.
Variable target_range : list Q -> list Q -> list Q -> list Z -> Ops -> list Q.
Variable project_point : DataFrame -> Ops -> list Q -> string -> DataFrame.

(** C7: [add_mirror], on every frame, sets [tx_pos] to the centroids of the
    transmit waveforms, computed with no limit, and hands the frame and the
    calibration to the mirror projector.  [add_fs], on a frame that has a
    [tx_pos] column (or with the prefix ["tx"]), with a limit that is absent
    or a sample count and a range operation that answers one range per row,
    sets [<prefix>_pos] to the centroids of the receive waveforms computed
    with that limit, sets [<prefix>_range] to what the range operation
    answers for the columns [range], [tx_pos], [<prefix>_pos] and [channel]
    and the calibration, and hands the frame, the calibration, that range
    column and the prefix to the point projector.  Both return what the
    projector makes of the frame: no geometry is computed in between. *)
Theorem deriver_hands_centroids_to_projector :
  (forall (frame : DataFrame) (ops : Ops),
     exists tx_pos,
       centroids_of tx None frame tx_pos /\
       add_mirror unaligned project_mirror frame ops
       = Returns (project_mirror (with_column frame "tx_pos" tx_pos) ops)) /\
  (forall (frame : DataFrame) (ops : Ops) (prefix : string) (limit : option nat),
     (forall rng tx_pos pos chan o,
        length (target_range rng tx_pos pos chan o) = length rng) ->
     is_Some (added frame !! "tx_pos") \/ prefix = "tx" ->
     exists pos tx_pos,
       centroids_of rx (Z.of_nat <$> limit) frame pos /\
       added (with_column frame (prefix +:+ "_pos") pos) !! "tx_pos" = Some tx_pos /\
       let rng := target_range (range <$> rows frame) tx_pos pos
                               (channel <$> rows frame) ops in
       add_fs unaligned target_range project_point frame ops prefix (Z.of_nat <$> limit)
       = Returns (project_point
                    (with_column (with_column frame (prefix +:+ "_pos") pos)
                                 (prefix +:+ "_range") rng)
                    ops rng prefix)).
Proof.
  split.
  - intros frame ops.
    destruct (centroid_array_returns tx None frame) as (tx_pos & Harr & Htx).
    exists tx_pos. split; [exact Htx|].
    unfold add_mirror. cbn [fmap option_fmap option_map] in Harr. rewrite Harr.
    cbn [mbind outcome_bind].
    rewrite setitem_same_length by (symmetry; eapply Forall2_length, Htx). done.
  - intros frame ops prefix limit Hlen Hcol.
    destruct (centroid_array_returns rx limit frame) as (pos & Harr & Hpos).
    assert (exists tx_pos,
      added (with_column frame (prefix +:+ "_pos") pos) !! "tx_pos" = Some tx_pos)
      as [tx_pos Htx].
    { cbn [added with_column]. destruct Hcol as [[col Hcol]| ->].
      - rewrite lookup_insert. case_decide; eauto.
      - exists pos. apply lookup_insert_eq. }
    exists pos, tx_pos. split; [exact Hpos|]. split; [exact Htx|]. cbv zeta.
    unfold add_fs. rewrite Harr. cbn [mbind outcome_bind].
    rewrite setitem_same_length by (symmetry; eapply Forall2_length, Hpos).
    cbn [mbind outcome_bind]. rewrite (getitem_present _ _ _ Htx).
    cbn [mbind outcome_bind]. rewrite getitem_with_column.
    cbn [mbind outcome_bind rows with_column].
    rewrite setitem_same_length by (cbn [rows]; by rewrite Hlen, length_fmap).
    cbn [mbind outcome_bind]. by rewrite getitem_with_column.
Qed.
End DeriverProperties.

Lemma deriver_hands_centroids_to_projector_witness :
  let unaligned := as_array in
  let project_mirror (frame : DataFrame) (_ : unit) :=
    with_column frame "mir_x" ((fun _ => 0%Q) <$> rows frame) in
  let target_range (rng tx_pos pos : list Q) (chan : list Z) (_ : unit) :=
    (fun r => r + 1)%Q <$> rng in
  let project_point (frame : DataFrame) (_ : unit) (_ : list Q) (_ : string) := frame in
  let raw :=
    mkFrame [mkRecord 1 1 1 [0; 10; 0] [0; 0; 10] 0 0 5;
             mkRecord 1 2 2 [4; 4; 4] [1; 3; 1] 0 0 7] ∅ in
  let frame := with_column raw "tx_pos" [2%Q; 1%Q] in
  add_mirror unaligned project_mirror raw ()
    = Returns (project_mirror (with_column raw "tx_pos" [2%Q; 1%Q]) ()) /\
  exists pos tx_pos,
    centroids_of rx (Z.of_nat <$> Some 12%nat) frame pos /\
    added (with_column frame ("fs" +:+ "_pos") pos) !! "tx_pos" = Some tx_pos /\
    let rng := target_range (range <$> rows frame) tx_pos pos
                            (channel <$> rows frame) () in
    add_fs unaligned target_range project_point frame () "fs" (Z.of_nat <$> Some 12%nat)
    = Returns (project_point
                 (with_column (with_column frame ("fs" +:+ "_pos") pos)
                              ("fs" +:+ "_range") rng)
                 () rng "fs").
Proof.
  intros unaligned project_mirror target_range project_point raw frame.
  destruct (deriver_hands_centroids_to_projector
              unaligned project_mirror target_range project_point) as [Hm Hf].
  split.
  - destruct (Hm raw ()) as (tx_pos & Htx & ->). do 3 f_equal.
    unfold centroids_of in Htx. cbn [rows raw] in Htx.
    apply Forall2_cons_inv_l in Htx as (q1 & l1 & [= <-] & Htx & ->).
    apply Forall2_cons_inv_l in Htx as (q2 & l2 & [= <-] & Htx & ->).
    by apply Forall2_nil_inv_l in Htx as ->.
  - apply (Hf frame () "fs" (Some 12%nat)).
    + intros. apply length_fmap.
    + left. eexists. apply lookup_insert_eq.
Defined.

Example add_mirror_then_add_fs :
  let unaligned := as_array in
  let project_mirror (frame : DataFrame) (_ : unit) := frame in
  let target_range (rng tx_pos pos : list Q) (chan : list Z) (_ : unit) :=
    zip_with Qplus rng (zip_with Qminus pos tx_pos) in
  let project_point (frame : DataFrame) (_ : unit) (_ : list Q) (_ : string) := frame in
  let frame :=
    mkFrame [mkRecord 1 1 1 [0; 10; 0] [0; 0; 10] 0 0 5;
             mkRecord 1 2 2 [4; 4; 4] [1; 3; 1] 0 0 7] ∅ in
  match
    frame ← add_mirror unaligned project_mirror frame ();
    add_fs unaligned target_range project_point frame () default_prefix default_limit
  with
  | Returns out =>
      added out !! "tx_pos" = Some [2; 1]%Q /\
      added out !! "fs_pos" = Some [1; -1]%Q /\
      added out !! "fs_range" = Some [5 + (1 - 2); 7 + (-1 - 1)]%Q
  | Raises _ => False
  end.
Proof. vm_compute. repeat split. Qed.

(** * Further properties *)

(** ** Centroid estimator *)

Lemma centroid_body_returns (wc : list Z) : exists q, centroid_body wc = Returns q.
Proof. unfold centroid_body. cbv zeta. destruct (_ =? _); eauto. Qed.

Lemma centroid_raises_IndexError (w : list Z) (limit : option Z) (e : exn) :
  centroid w limit = Raises e -> e = IndexError.
Proof.
  rewrite centroid_unfold. destruct (decide _); [done|].
  destruct (if truthy limit then _ else _) as [|x wc]; [congruence|].
  by destruct (centroid_body_returns (x :: wc)) as [q ->].
Qed.

(** X1: the only exception of [centroid] is the [IndexError] of [wf[0]],
    and it is raised exactly when the waveform has samples and a negative
    limit removes them all. *)
Theorem centroid_raises (w : list Z) (limit : option Z) (e : exn) :
  centroid w limit = Raises e <->
  e = IndexError /\ w <> [] /\
  exists l, limit = Some l /\ l < 0 /\ Z.of_nat (length w) + l <= 0.
Proof.
  rewrite centroid_unfold. destruct (decide (length w = 0%nat)) as [Hw|Hw].
  - split; [done|]. intros (_ & Hne & _). by destruct w.
  - destruct limit as [l|]; cbn [truthy default from_option id].
    + destruct (Z.eqb_spec l 0) as [->|Hl]; cbn [negb].
      * destruct w as [|x w]; [done|].
        destruct (centroid_body_returns (x :: w)) as [q ->].
        split; [done|]. intros (_ & _ & l & [= <-] & ? & _). lia.
      * unfold slice_to. destruct (Z.leb_spec 0 l) as [Hpos|Hneg].
        -- destruct w as [|x w]; [done|].
           destruct (Z.to_nat l) as [|k] eqn:Ek; [lia|]. cbn [take].
           destruct (centroid_body_returns (x :: take k w)) as [q ->].
           split; [done|]. intros (_ & _ & l' & [= <-] & ? & _). lia.
        -- destruct (take _ w) as [|y wc] eqn:Et.
           ++ split; [|by intros (-> & _)]. intros [= <-]. split; [done|].
              split; [by intros ->|]. exists l. split; [done|]. split; [done|].
              apply (f_equal length) in Et. rewrite length_take in Et. cbn in Et. lia.
           ++ destruct (centroid_body_returns (y :: wc)) as [q ->].
              split; [done|]. intros (_ & _ & l' & [= <-] & _ & Hle).
              replace (Z.to_nat _) with 0%nat in Et by lia. by rewrite take_0 in Et.
    + destruct w as [|x w]; [done|].
      destruct (centroid_body_returns (x :: w)) as [q ->].
      split; [done|]. by intros (_ & _ & l & ? & _).
Qed.

(** X2: with a positive limit only the first [limit] samples count:
    [centroid w limit] is the centroid of that prefix, and a limit that is
    at least the length of the waveform changes nothing. *)
Theorem centroid_limit_prefix (w : list Z) (n : nat) :
  centroid w (Some (Z.of_nat (S n))) = centroid (take (S n) w) None /\
  ((length w <= S n)%nat -> centroid w (Some (Z.of_nat (S n))) = centroid w None).
Proof.
  assert (centroid w (Some (Z.of_nat (S n))) = centroid (take (S n) w) None) as H.
  { destruct (decide (w = [])) as [->|Hw]; [done|].
    destruct (centroid_nonempty w (Some (S n)) Hw) as [Hc E].
    cbn [fmap option_fmap option_map considered] in E, Hc. rewrite E.
    destruct (centroid_nonempty (take (S n) w) None Hc) as [_ E'].
    cbn [fmap option_fmap option_map considered] in E'. by rewrite E'. }
  split; [exact H|]. intros Hlen. by rewrite H, take_ge.
Qed.

Lemma sum_app (a b : list Z) : sum (a ++ b) = sum a + sum b.
Proof. induction a as [|x a IH]; [done|]. cbn [app]. rewrite !sum_cons, IH. lia. Qed.

Lemma sum_zeros (n : nat) : sum (replicate n 0) = 0.
Proof. induction n as [|n IH]; [done|]. cbn [replicate]. by rewrite sum_cons, IH. Qed.

Lemma weighted_zeros (n : nat) (start : Z) :
  sum (zip_with Z.mul (replicate n 0) (arange start n)) = 0.
Proof.
  revert start. induction n as [|n IH]; intros start; [done|].
  rewrite arange_S. cbn [replicate zip_with]. by rewrite sum_cons, IH.
Qed.

Lemma arange_app (start : Z) (n m : nat) :
  arange start (n + m) = arange start n ++ arange (start + Z.of_nat n) m.
Proof.
  revert start. induction n as [|n IH]; intros start.
  - change (arange start 0) with (@nil Z). cbn [Nat.add app].
    by replace (start + Z.of_nat 0) with start by lia.
  - cbn [Nat.add]. rewrite !arange_S, IH. cbn [app].
    by replace (start + Z.of_nat (S n)) with (start + 1 + Z.of_nat n) by lia.
Qed.

Lemma background_removed_flat (n : nat) (c : Z) :
  background_removed (replicate n c) = replicate n 0.
Proof.
  destruct n as [|n]; [done|]. unfold background_removed.
  change (nth 0 (replicate (S n) c) 0) with c.
  by rewrite fmap_replicate, Z.sub_diag.
Qed.

(** X3: a waveform whose samples are all equal has no centroid: the
    sentinel -1 is returned, whatever its length and for every limit that is
    absent or a sample count. *)
Theorem centroid_flat_waveform (n : nat) (c : Z) (limit : option nat) :
  centroid (replicate n c) (Z.of_nat <$> limit) = Returns (-1)%Q.
Proof.
  destruct n as [|n]; [by destruct limit|].
  destruct (centroid_nonempty (replicate (S n) c) limit ltac:(done)) as [_ ->].
  assert (exists k, considered limit (replicate (S n) c) = replicate k c) as [k ->].
  { destruct limit as [[|l]|]; cbn [considered]; eauto.
    rewrite take_replicate. eauto. }
  unfold centroid_body. cbv zeta. by rewrite background_removed_flat, sum_zeros.
Qed.

Lemma Qred_inject_Z (k : Z) : Qred (inject_Z k) = inject_Z k.
Proof. apply Qred_identity. cbn. apply Z.gcd_1_r. Qed.

Lemma impulse_removed (i : nat) (c h : Z) (m : nat) :
  background_removed (impulse (S i) c h m) = replicate (S i) 0 ++ h :: replicate m 0.
Proof.
  unfold background_removed, impulse. cbn [replicate app nth].
  rewrite fmap_cons, fmap_app, fmap_cons, !fmap_replicate.
  cbn [replicate app]. repeat f_equal; lia.
Qed.

(** X4: a flat waveform with a single raised (or lowered) sample at an
    index [i >= 1] has its centroid exactly at [i]. *)
Theorem centroid_impulse (i : nat) (c h : Z) (m : nat) :
  h <> 0 ->
  centroid (impulse (S i) c h m) None = Returns (inject_Z (Z.of_nat (S i))).
Proof.
  intros Hh.
  destruct (centroid_nonempty (impulse (S i) c h m) None ltac:(done)) as [_ E].
  cbn [fmap option_fmap option_map considered] in E. rewrite E. clear E.
  unfold centroid_body. cbv zeta. rewrite impulse_removed.
  assert (sum (replicate (S i) 0 ++ h :: replicate m 0) = h) as ->.
  { rewrite sum_app, sum_cons, !sum_zeros. lia. }
  destruct (Z.eqb_spec h 0); [done|]. f_equal.
  rewrite <- (Qred_inject_Z (Z.of_nat (S i))). apply Qred_complete.
  rewrite length_app, length_replicate. cbn [length]. rewrite length_replicate.
  rewrite arange_app, zip_with_app by (by rewrite length_replicate; unfold arange; rewrite length_fmap, length_seq).
  rewrite sum_app, weighted_zeros, arange_S. cbn [zip_with].
  rewrite sum_cons, weighted_zeros.
  replace (0 + (h * (1 + Z.of_nat (S i)) + 0)) with (h * (Z.of_nat (S i) + 1)) by lia.
  rewrite inject_Z_mult, inject_Z_plus. field.
  intros H0. apply Hh. by apply inject_Z_injective.
Qed.

Lemma centroid_impulse_witness :
  2 <> 0 /\ centroid (impulse 3 7 2 4) None = Returns (inject_Z (Z.of_nat 3)).
Proof. split; [lia|]. apply (centroid_impulse 2 7 2 4). lia. Defined.

Lemma sum_scale (k : Z) (a : list Z) : sum ((fun x => k * x) <$> a) = k * sum a.
Proof. induction a as [|x a IH]; [cbn; lia|]. rewrite fmap_cons, !sum_cons, IH. lia. Qed.

Lemma weighted_scale (k : Z) (a : list Z) (start : Z) :
  sum (zip_with Z.mul ((fun x => k * x) <$> a) (arange start (length a)))
  = k * sum (zip_with Z.mul a (arange start (length a))).
Proof.
  revert start. induction a as [|x a IH]; intros start; [cbn; lia|].
  cbn [length]. rewrite arange_S, fmap_cons. cbn [zip_with].
  rewrite !sum_cons, IH. lia.
Qed.

Lemma background_removed_scale (k : Z) (w : list Z) :
  background_removed ((fun x => k * x) <$> w) = (fun x => k * x) <$> background_removed w.
Proof.
  unfold background_removed. destruct w as [|x w]; [done|].
  rewrite fmap_cons. cbn [nth]. rewrite <- fmap_cons, <- !list_fmap_compose.
  apply list_fmap_ext. intros _ y _. cbn. lia.
Qed.

Lemma centroid_body_scale (k : Z) (wc : list Z) :
  k <> 0 -> centroid_body ((fun x => k * x) <$> wc) = centroid_body wc.
Proof.
  intros Hk. unfold centroid_body. cbv zeta.
  rewrite background_removed_scale, sum_scale, length_fmap, weighted_scale.
  set (S := sum (background_removed wc)).
  set (W := sum (zip_with Z.mul _ _)).
  destruct (Z.eqb_spec S 0) as [->|HS].
  - by rewrite Z.mul_0_r.
  - destruct (Z.eqb_spec (k * S) 0); [nia|]. f_equal. apply Qred_complete.
    rewrite !inject_Z_mult. field.
    split; intros H0; [apply HS|apply Hk]; by apply inject_Z_injective.
Qed.

Lemma centroid_scale_exact (w : list Z) (limit : option Z) (k : Z) :
  k <> 0 -> centroid ((fun x => k * x) <$> w) limit = centroid w limit.
Proof.
  intros Hk. rewrite !centroid_unfold, length_fmap.
  destruct (decide (length w = 0%nat)); [done|].
  assert (forall wc : list Z,
    match (fun x => k * x) <$> wc with
    | [] => Raises IndexError
    | x :: wc' => centroid_body (x :: wc')
    end = match wc with [] => Raises IndexError | x :: wc' => centroid_body (x :: wc') end) as H.
  { intros [|x wc]; [done|].
    change (centroid_body ((fun x => k * x) <$> x :: wc) = centroid_body (x :: wc)).
    by apply centroid_body_scale. }
  destruct (truthy limit); [rewrite slice_to_fmap|]; apply H.
Qed.

(** Where no difference wraps, the element type plays no part. *)
Lemma centroid_dtype_no_wrap (dt : dtype) (w : list Z) (limit : option Z) :
  no_wrap dt w -> centroid_dtype dt w limit = centroid w limit.
Proof.
  intros Hnw. unfold centroid, centroid_dtype.
  destruct (decide (length w = 0%nat)) as [|_]; [done|]. cbv zeta.
  assert (exists n, (if truthy limit then slice_to w (default 0 limit) else w) = take n w)
    as [n ->].
  { destruct (truthy limit); [apply slice_to_take|]. exists (length w). by rewrite take_ge. }
  destruct (take n w) as [|x wc] eqn:E; [done|].
  assert ((fun y => wrap dt (y - x)) <$> x :: wc = (fun y => wrap exact (y - x)) <$> x :: wc)
    as ->; [|done].
  apply Forall_fmap_ext. rewrite <- E.
  assert (nth 0 w 0 = x) as Hx.
  { destruct w as [|y w]; [by destruct n|]. destruct n; [done|]. by injection E as -> _. }
  unfold no_wrap in Hnw. rewrite Hx in Hnw. apply Forall_take.
  eapply Forall_impl; [exact Hnw|]. intros y Hy. by cbn [wrap].
Qed.

(** X5: on an array whose differences to the first sample do not wrap in
    its element type, before and after the scaling, multiplying every
    sample by a nonzero constant leaves the centroid unchanged, whatever the
    limit: the estimate depends on the shape of the waveform, not on the
    gain.  (Where differences wrap this fails: on [uint8], [[10, 0, 30]]
    and [[20, 0, 60]] have different centroids.) *)
Theorem centroid_scale_invariant (dt : dtype) (w : list Z) (limit : option Z) (k : Z) :
  k <> 0 -> no_wrap dt w -> no_wrap dt ((fun x => k * x) <$> w) ->
  centroid_dtype dt ((fun x => k * x) <$> w) limit = centroid_dtype dt w limit.
Proof.
  intros Hk Hw Hkw. rewrite !centroid_dtype_no_wrap by done.
  by apply centroid_scale_exact.
Qed.

Lemma centroid_scale_invariant_witness :
  3 <> 0 /\ no_wrap uint8 [2; 9; 4; 2] /\
  no_wrap uint8 ((fun x => 3 * x) <$> [2; 9; 4; 2]) /\
  centroid_dtype uint8 ((fun x => 3 * x) <$> [2; 9; 4; 2]) (Some 12)
  = centroid_dtype uint8 [2; 9; 4; 2] (Some 12).
Proof.
  assert (no_wrap uint8 [2; 9; 4; 2]) as H1 by (by repeat constructor).
  assert (no_wrap uint8 ((fun x => 3 * x) <$> [2; 9; 4; 2])) as H2
    by (by repeat constructor).
  split; [lia|]. split; [exact H1|]. split; [exact H2|].
  apply (centroid_scale_invariant uint8 [2; 9; 4; 2] (Some 12) 3); [lia|exact H1|exact H2].
Defined.

Example centroid_scale_wraps :
  centroid_dtype uint8 [10; 0; 30] None = Returns (143 # 133) /\
  centroid_dtype uint8 [20; 0; 60] None = Returns (79 # 69).
Proof. split; reflexivity. Qed.

(** X24: on a [uint8] array none of whose samples is below the first one,
    no difference wraps, and the centroid is the one computed on the same
    samples as Python integers, for every limit. *)
Theorem centroid_uint8_above_background (w : list Z) (limit : option Z) :
  Forall (fun x => 0 <= x < 256) w -> above_background w ->
  centroid_dtype uint8 w limit = centroid w limit.
Proof.
  intros Hr Hbg. apply centroid_dtype_no_wrap. unfold no_wrap, above_background in *.
  assert (0 <= nth 0 w 0 < 256) as H0.
  { destruct w as [|x w]; [cbn; lia|]. by apply Forall_cons in Hr as [? _]. }
  rewrite Forall_forall in *. intros x Hx. specialize (Hr x Hx). specialize (Hbg x Hx).
  cbn [wrap uint8]. apply Z.mod_small. change (2 ^ 8) with 256. lia.
Qed.

Lemma centroid_uint8_above_background_witness :
  Forall (fun x => 0 <= x < 256) [3; 3; 250; 5] /\ above_background [3; 3; 250; 5] /\
  centroid_dtype uint8 [3; 3; 250; 5] (Some 12) = centroid [3; 3; 250; 5] (Some 12).
Proof.
  assert (Forall (fun x => 0 <= x < 256) [3; 3; 250; 5]) as H1 by (repeat constructor; lia).
  assert (above_background [3; 3; 250; 5]) as H2
    by (unfold above_background; cbn; repeat constructor; lia).
  split; [exact H1|]. split; [exact H2|].
  exact (centroid_uint8_above_background [3; 3; 250; 5] (Some 12) H1 H2).
Defined.

Lemma ratio_between (W S lo hi : Z) :
  0 < S -> lo * S <= W <= hi * S ->
  (inject_Z lo - 1 <= inject_Z W / inject_Z S - 1 <= inject_Z hi - 1)%Q.
Proof.
  intros HS [Hlo Hhi].
  assert (0 < inject_Z S)%Q as HSq by (rewrite <- (Zlt_Qlt 0); lia).
  assert (inject_Z lo <= inject_Z W / inject_Z S)%Q.
  { apply Qle_shift_div_l; [done|]. rewrite <- inject_Z_mult, <- Zle_Qle. lia. }
  assert (inject_Z W / inject_Z S <= inject_Z hi)%Q.
  { apply Qle_shift_div_r; [done|]. rewrite <- inject_Z_mult, <- Zle_Qle. lia. }
  split; lra.
Qed.

(** X6: when no sample of the waveform is below the first one, a centroid other
    than -1 lies between index 1 and the last considered index: it is never
    in [[0, 1)], and with a positive limit it is below the limit. *)
Theorem centroid_within_window (w : list Z) (limit : option nat) :
  above_background w ->
  exists q, centroid w (Z.of_nat <$> limit) = Returns q /\
    (q = (-1)%Q \/
     (1 <= q <= inject_Z (Z.of_nat (length (considered limit w))) - 1)%Q).
Proof.
  intros Hbg. destruct (decide (w = [])) as [->|Hw].
  { exists (-1)%Q. split; [by destruct limit|by left]. }
  destruct (centroid_nonempty w limit Hw) as [Hc ->].
  assert (above_background (considered limit w)) as Hbg'.
  { unfold above_background in *. destruct w as [|x w]; [done|].
    destruct limit as [[|n]|]; cbn [considered]; try done.
    cbn [take nth] in *. change (x :: take n w) with (take (S n) (x :: w)).
    by apply Forall_take. }
  destruct (considered limit w) as [|x wc]; [done|].
  unfold centroid_body. cbv zeta. unfold above_background in Hbg'. cbn [nth] in Hbg'.
  unfold background_removed. cbn [nth]. rewrite fmap_cons, Z.sub_diag.
  set (b := (fun y => y - x) <$> wc).
  assert (Forall (fun y => 0 <= y) b) as Hb.
  { subst b. apply Forall_fmap. apply Forall_cons in Hbg' as [_ Hbg'].
    eapply Forall_impl; [exact Hbg'|]. intros y Hy. cbn in *. lia. }
  cbn [length]. rewrite arange_S. cbn [zip_with]. rewrite !sum_cons.
  assert (length b = length wc) as Hlen by (subst b; apply length_fmap).
  destruct (weighted_sum_bounds b 2 Hb ltac:(lia)) as (H0 & Hlo & Hhi).
  rewrite Hlen in *. replace (1 + 1) with 2 by lia.
  destruct (Z.eqb_spec (0 + sum b) 0) as [E|E]; eexists; (split; [done|]); [by left|right].
  rewrite Qred_correct.
  destruct (ratio_between (0 * 1 + sum (zip_with Z.mul b (arange 2 (length wc))))
              (0 + sum b) 2 (Z.of_nat (S (length wc)))) as [? ?]; [lia|nia|].
  split; [|done]. change 1%Q with (inject_Z 2 - 1)%Q. done.
Qed.

Lemma centroid_within_window_witness :
  let w := [3; 3; 9; 5; 3; 8] in
  above_background w /\
  exists q, centroid w (Z.of_nat <$> Some 4%nat) = Returns q /\
    (q = (-1)%Q \/
     (1 <= q <= inject_Z (Z.of_nat (length (considered (Some 4%nat) w))) - 1)%Q).
Proof.
  intros w.
  assert (above_background w) as H.
  { unfold above_background. cbn. repeat constructor; lia. }
  split; [exact H|]. exact (centroid_within_window w (Some 4%nat) H).
Defined.

Lemma centroid_array_cons (w : list Z) (ws : list (list Z)) (limit : option Z) :
  centroid_array (w :: ws) limit =
  c ← centroid w limit; cs ← centroid_array ws limit; Returns (c :: cs).
Proof. reflexivity. Qed.

(** X7: [centroid_array] works waveform by waveform: it returns a column
    exactly when every waveform has a centroid, one value per waveform in
    order, and it raises exactly when some waveform makes [centroid] raise. *)
Theorem centroid_array_elementwise (wfs : list (list Z)) (limit : option Z) :
  (forall qs, centroid_array wfs limit = Returns qs <->
              Forall2 (fun w q => centroid w limit = Returns q) wfs qs) /\
  (forall e, centroid_array wfs limit = Raises e <->
             exists w, w ∈ wfs /\ centroid w limit = Raises e).
Proof.
  induction wfs as [|w ws [IHr IHe]].
  - split.
    + intros qs. split; [intros [= <-]; constructor|]. by intros ->%Forall2_nil_inv_l.
    + intros e. split; [done|]. by intros (w & ?%elem_of_nil & _).
  - split.
    + intros qs. rewrite centroid_array_cons.
      destruct (centroid w limit) as [c|e] eqn:Ec; cbn [mbind outcome_bind].
      * destruct (centroid_array ws limit) as [cs|e] eqn:Ea; cbn [mbind outcome_bind].
        -- split.
           ++ intros [= <-]. constructor; [done|]. by apply IHr.
           ++ intros (q & qs' & Hq & Hqs & ->)%Forall2_cons_inv_l.
              apply IHr in Hqs. congruence.
        -- split; [done|].
           intros (q & qs' & Hq & Hqs & ->)%Forall2_cons_inv_l.
           apply IHr in Hqs. done.
      * split; [done|].
        intros (q & qs' & Hq & Hqs & ->)%Forall2_cons_inv_l. congruence.
    + intros e. rewrite centroid_array_cons.
      destruct (centroid w limit) as [c|e'] eqn:Ec; cbn [mbind outcome_bind].
      * destruct (centroid_array ws limit) as [cs|e'] eqn:Ea; cbn [mbind outcome_bind].
        -- split; [done|]. intros (w' & [->|Hin]%elem_of_cons & Hw'); [congruence|].
           assert (Returns cs = Raises e) by (apply IHe; eauto). done.
        -- split.
           ++ intros [= <-]. destruct (proj1 (IHe e') eq_refl) as (w' & Hin & Hw').
              exists w'. split; [by apply elem_of_cons; right|done].
           ++ intros (w' & _ & Hw'). f_equal.
              destruct (proj1 (IHe e') eq_refl) as (w'' & _ & Hw'').
              apply centroid_raises_IndexError in Hw' as ->.
              by apply centroid_raises_IndexError in Hw'' as ->.
      * split.
        -- intros [= <-]. exists w. split; [apply elem_of_cons; by left|done].
        -- intros (w' & _ & Hw'). f_equal.
           apply centroid_raises_IndexError in Hw' as ->.
           by apply centroid_raises_IndexError in Ec as ->.
Qed.

(** ** Filtering frames *)

Lemma mask_select_nil_r {A} (mask : list bool) : mask_select mask (@nil A) = [].
Proof. by destruct mask. Qed.

(** Two masks in a row are one mask: the second is taken on the rows the
    first one kept. *)
Lemma mask_select_twice {A B} (p q : A -> bool) (rs : list A) (col : list B) :
  mask_select (p <$> mask_select (q <$> rs) rs) (mask_select (q <$> rs) col)
  = mask_select ((fun r => q r && p r) <$> rs) col.
Proof.
  revert col. induction rs as [|r rs IH]; intros col.
  - by destruct col.
  - rewrite !fmap_cons. destruct col as [|c col].
    + by rewrite !mask_select_nil_r.
    + cbn [mask_select]. destruct (q r); cbn [andb].
      * rewrite fmap_cons. cbn [mask_select]. rewrite IH. by destruct (p r).
      * apply IH.
Qed.

Lemma mask_select_ext {A B} (p q : A -> bool) (rs : list A) (col : list B) :
  (forall r, p r = q r) -> mask_select (p <$> rs) col = mask_select (q <$> rs) col.
Proof. intros H. f_equal. apply list_fmap_ext. auto. Qed.

Lemma frame_filter_compose (p q : record -> bool) (frame : DataFrame) :
  frame_filter p (frame_filter q frame) = frame_filter (fun r => q r && p r) frame.
Proof.
  unfold frame_filter, getitem_mask. cbn [rows added]. f_equal.
  - apply mask_select_twice.
  - rewrite <- map_fmap_compose. apply map_fmap_ext. intros name col _.
    apply mask_select_twice.
Qed.

Lemma frame_filter_ext (p q : record -> bool) (frame : DataFrame) :
  (forall r, p r = q r) -> frame_filter p frame = frame_filter q frame.
Proof. intros H. unfold frame_filter. f_equal. apply list_fmap_ext. auto. Qed.

Lemma remove_failed_thresh_filters (frame : DataFrame) (rx tx : bool) :
  remove_failed_thresh frame rx tx =
  let frame := if rx then frame_filter (fun r => thresh_rx r =? 0) frame else frame in
  if tx then frame_filter (fun r => thresh_tx r =? 0) frame else frame.
Proof. reflexivity. Qed.

(** X8: filtering twice is filtering once with the checks of both calls:
    [remove_failed_thresh] applied to its own output, with any flags, is one
    call with the flags or-ed.  So the filter is idempotent, and checking
    [rx] and [tx] in two calls gives the same frame in either order as
    checking both at once. *)
Theorem remove_failed_thresh_compose (frame : DataFrame) (rx1 tx1 rx2 tx2 : bool) :
  remove_failed_thresh (remove_failed_thresh frame rx1 tx1) rx2 tx2
    = remove_failed_thresh frame (rx1 || rx2) (tx1 || tx2) /\
  remove_failed_thresh (remove_failed_thresh frame rx1 tx1) rx1 tx1
    = remove_failed_thresh frame rx1 tx1 /\
  remove_failed_thresh (remove_failed_thresh frame false true) true false
    = remove_failed_thresh (remove_failed_thresh frame true false) false true.
Proof.
  assert (forall rx1 tx1 rx2 tx2,
    remove_failed_thresh (remove_failed_thresh frame rx1 tx1) rx2 tx2
    = remove_failed_thresh frame (rx1 || rx2) (tx1 || tx2)) as H.
  { clear. intros rx1 tx1 rx2 tx2. rewrite !remove_failed_thresh_filters.
    destruct rx1, tx1, rx2, tx2; cbn [orb]; cbv zeta;
      rewrite ?frame_filter_compose; try reflexivity;
      apply frame_filter_ext; intros r;
      by destruct (thresh_rx r =? 0), (thresh_tx r =? 0). }
  split; [apply H|]. split.
  - by rewrite H, !orb_diag.
  - by rewrite !H.
Qed.

(** ** Added columns under masks *)

Lemma length_mask_select {A B} (mask : list bool) (a : list A) (b : list B) :
  length a = length b -> length (mask_select mask a) = length (mask_select mask b).
Proof.
  revert a b. induction mask as [|m mask IH]; intros [|x a] [|y b] H; try done.
  injection H as H. cbn [mask_select]. destruct m; cbn [length]; auto.
Qed.

Lemma mask_select_zip {A B} (mask : list bool) (a : list A) (b : list B) :
  mask_select mask (zip a b) = zip (mask_select mask a) (mask_select mask b).
Proof.
  revert a b. induction mask as [|m mask IH]; intros [|x a] [|y b]; try done.
  - cbn. by destruct m, (mask_select mask a).
  - cbn [zip zip_with mask_select]. destruct m; cbn [zip zip_with]; by rewrite <- IH.
Qed.

Lemma getitem_mask_aligned (frame : DataFrame) (mask : list bool) :
  columns_aligned frame -> columns_aligned (getitem_mask frame mask).
Proof.
  intros H name col. cbn [added rows getitem_mask]. rewrite lookup_fmap.
  destruct (added frame !! name) as [c|] eqn:E; [|done]. intros [= <-].
  apply length_mask_select. eauto.
Qed.

Lemma row_values_getitem_mask (frame : DataFrame) (mask : list bool) (name : string) :
  row_values (getitem_mask frame mask) name = mask_select mask (row_values frame name).
Proof.
  unfold row_values. cbn [added rows getitem_mask]. rewrite lookup_fmap, mask_select_zip.
  f_equal. destruct (added frame !! name); [done|]. cbn. by rewrite mask_select_nil_r.
Qed.

(** X9: the threshold filter keeps the added columns in step with the rows:
    if every added column has one value per row, so it is in the output,
    and each kept row keeps its own value in every column. *)
Theorem remove_failed_thresh_columns (frame : DataFrame) (rx tx : bool) :
  columns_aligned frame ->
  columns_aligned (remove_failed_thresh frame rx tx) /\
  forall name,
    row_values (remove_failed_thresh frame rx tx) name
    = filter (fun rv => passes rx tx rv.1) (row_values frame name).
Proof.
  intros H. rewrite remove_failed_thresh_filters. cbv zeta. unfold frame_filter. split.
  - destruct rx, tx; auto using getitem_mask_aligned.
  - intros name.
    assert (forall (p : record -> bool) f,
      columns_aligned f ->
      row_values (getitem_mask f (p <$> rows f)) name
      = filter (fun rv => p rv.1) (row_values f name)) as Hp.
    { clear. intros p f Hf. rewrite row_values_getitem_mask. unfold row_values.
      destruct (added f !! name) as [col|] eqn:E; cbn [default from_option id].
      - specialize (Hf _ _ E). clear E. revert col Hf.
        induction (rows f) as [|r rs IH]; intros [|c col] Hlen; try done.
        injection Hlen as Hlen. rewrite fmap_cons. cbn [zip zip_with mask_select].
        rewrite filter_cons. cbn [fst]. fold (zip rs col). rewrite <- (IH col Hlen).
        by destruct (p r).
      - rewrite zip_with_nil_r. by rewrite mask_select_nil_r. }
    destruct rx, tx; rewrite ?Hp by auto using getitem_mask_aligned;
      rewrite ?list_filter_filter; try apply list_filter_iff; unfold passes;
      try (intros rv; rewrite ?Is_true_eqb; intuition congruence).
    induction (row_values frame name) as [|rv l IH]; [done|].
    rewrite filter_cons_True by done. by f_equal.
Qed.

Lemma remove_failed_thresh_columns_witness :
  let r (a b : Z) := mkRecord 1 1 1 [] [] a b 0 in
  let frame := mkFrame [r 0 0; r 1 0; r 0 1] {["tx_pos" := [1; 2; 3]%Q]} in
  columns_aligned frame /\
  columns_aligned (remove_failed_thresh frame true true) /\
  forall name,
    row_values (remove_failed_thresh frame true true) name
    = filter (fun rv => passes true true rv.1) (row_values frame name).
Proof.
  intros r frame.
  assert (columns_aligned frame) as H.
  { intros name col. unfold frame. cbn [added rows].
    rewrite lookup_singleton. case_decide; [|done]. by intros [= <-]. }
  split; [exact H|]. exact (remove_failed_thresh_columns frame true true H).
Defined.

(** ** Channel selector: errors and shapes *)

Lemma logical_and_raises (a b : list bool) (e : exn) :
  logical_and a b = Raises e -> e = shape_mismatch.
Proof.
  unfold logical_and. destruct (decide _); [done|].
  destruct a as [|x [|x' a]], b as [|y [|y' b]]; congruence.
Qed.

Lemma setitem_step3_raises {A} (start : nat) (a v : list A) (e : exn) :
  setitem_step3 start a v = Raises e -> e = cannot_assign.
Proof.
  unfold setitem_step3. cbv zeta. destruct (decide _); [done|].
  destruct v as [|y [|y' v]]; congruence.
Qed.

Lemma keep_mask_raises (saturated : list bool) (e : exn) :
  keep_mask saturated = Raises e -> e = shape_mismatch \/ e = cannot_assign.
Proof.
  unfold keep_mask. cbv zeta. set (keep0 := logical_not saturated).
  destruct (logical_and (logical_not (step3 0 keep0)) (step3 1 keep0))
    as [v|e1] eqn:E1; cbn [mbind outcome_bind].
  - destruct (setitem_step3 1 keep0 v) as [k|e2] eqn:E2; cbn [mbind outcome_bind].
    + destruct (logical_and (logical_not (step3 0 k)) (logical_not (step3 1 k)))
        as [v'|e3] eqn:E3; cbn [mbind outcome_bind].
      * intros H. right. exact (setitem_step3_raises _ _ _ _ H).
      * intros [= <-]. left. exact (logical_and_raises _ _ _ E3).
    + intros [= <-]. right. exact (setitem_step3_raises _ _ _ _ E2).
  - intros [= <-]. left. exact (logical_and_raises _ _ _ E1).
Qed.

(** X10: the sort error is the selector's answer to a failed sanity test
    and to nothing else: it is raised exactly when, channel 4 rows apart,
    some position does not hold the channel of its place or some raster
    number is below the one before it. *)
Theorem select_sort_error_iff (frame : DataFrame)
    (max_saturated max_samples saturation_value : Z) :
  select_eaarla_channel frame max_saturated max_samples saturation_value
    = Raises not_sorted <->
  ~ (aligned (channel <$> rows (without_channel4 frame)) /\
     raster_sorted (raster_number <$> rows (without_channel4 frame))).
Proof.
  rewrite select_unfold. cbv zeta. rewrite <- sanity_spec.
  destruct (sanity _ _).
  - split; [|done].
    destruct (keep_mask _) as [keep|e] eqn:E; cbn [mbind outcome_bind]; [done|].
    intros [= ->]. by apply keep_mask_raises in E as [E|E].
  - split; [|done]. by intros _ ?.
Qed.

Lemma select_returns_mask (frame out : DataFrame)
    (max_saturated max_samples saturation_value : Z) :
  select_eaarla_channel frame max_saturated max_samples saturation_value = Returns out ->
  exists keep, out = getitem_mask (without_channel4 frame) keep.
Proof.
  rewrite select_unfold. cbv zeta. destruct (sanity _ _); [|done].
  destruct (keep_mask _) as [keep|e]; cbn [mbind outcome_bind]; [|done].
  intros [= <-]. eauto.
Qed.

(** X11: whatever frame the selector accepts, also one that is no sequence
    of triplets, what it returns is a selection of the input: its rows are
    input rows in the input's order, none of channel 4, and added columns
    that had one value per row still have, each kept row with its own
    value. *)
Theorem select_returns_selection (frame out : DataFrame)
    (max_saturated max_samples saturation_value : Z) :
  select_eaarla_channel frame max_saturated max_samples saturation_value = Returns out ->
  rows out `sublist_of` rows frame /\
  Forall (fun r => channel r <> 4) (rows out) /\
  (columns_aligned frame -> columns_aligned out) /\
  forall name, row_values out name `sublist_of` row_values frame name.
Proof.
  intros [keep ->]%select_returns_mask.
  assert (rows (getitem_mask (without_channel4 frame) keep)
          `sublist_of` rows (without_channel4 frame)) as Hs
    by apply mask_select_sublist.
  repeat split.
  - etrans; [exact Hs|]. rewrite rows_without_channel4. apply sublist_filter.
  - eapply sublist_Forall; [exact Hs|]. rewrite rows_without_channel4.
    apply Forall_forall. intros r Hr. by apply list_elem_of_filter in Hr as [? _].
  - intros H. by apply getitem_mask_aligned, getitem_mask_aligned.
  - intros name. unfold without_channel4. rewrite !row_values_getitem_mask.
    etrans; apply mask_select_sublist.
Qed.

Lemma select_returns_selection_witness :
  let r (ch : Z) := mkRecord 1 1 ch [0; 1; 0] [] 0 0 0 in
  let frame := mkFrame [r 1; r 4] {["tx_pos" := [1; 2]%Q]} in
  let out := mkFrame [r 1] {["tx_pos" := [1%Q]]} in
  select_eaarla_channel frame 5 12 250 = Returns out /\
  rows out `sublist_of` rows frame /\
  Forall (fun r => channel r <> 4) (rows out) /\
  (columns_aligned frame -> columns_aligned out) /\
  forall name, row_values out name `sublist_of` row_values frame name.
Proof.
  intros r frame out.
  assert (select_eaarla_channel frame 5 12 250 = Returns out) as H.
  { vm_compute. reflexivity. }
  split; [exact H|]. exact (select_returns_selection frame out 5 12 250 H).
Defined.

Lemma length_every3 {A} (k r : nat) (a : list A) :
  length a = (3 * k + r)%nat -> (r < 3)%nat ->
  length (every3 a) = (k + Nat.min r 1)%nat.
Proof.
  revert a. induction k as [|k IH]; intros a Hlen Hr.
  - destruct a as [|x [|y [|z a]]]; cbn in *; destruct r as [|[|[|r]]]; try done; lia.
  - destruct a as [|x [|y [|z a]]]; cbn [length] in Hlen; try lia.
    cbn [every3 length]. rewrite (IH a) by lia. lia.
Qed.

Lemma length_put3 {A} (a v : list A) : length (put3 a v) = length a.
Proof.
  revert a. induction v as [|y v IH]; intros a; [by destruct a|].
  destruct a as [|x [|p [|q a]]]; try done. cbn [put3 length]. by rewrite IH.
Qed.

Lemma setitem_step3_length {A} (start : nat) (a v a' : list A) :
  setitem_step3 start a v = Returns a' -> length a' = length a.
Proof.
  unfold setitem_step3. cbv zeta. intros H.
  assert (forall v', length (take start a ++ put3 (drop start a) v') = length a) as Hl.
  { intros v'. rewrite length_app, length_put3, length_take, length_drop. lia. }
  destruct (decide _); [injection H as <-; apply Hl|].
  destruct v as [|y [|y' v]]; try done. injection H as <-. apply Hl.
Qed.

Lemma setitem_step3_mismatch {A} (start : nat) (a v : list A) :
  length v <> length (step3 start a) -> length v <> 1%nat ->
  setitem_step3 start a v = Raises cannot_assign.
Proof.
  intros H1 H2. unfold setitem_step3. cbv zeta. rewrite decide_False by done.
  by destruct v as [|y [|y' v]].
Qed.

Lemma length_step3 {A} (start k r : nat) (a : list A) :
  length a = (start + (3 * k + r))%nat -> (r < 3)%nat ->
  length (step3 start a) = (k + Nat.min r 1)%nat.
Proof.
  intros Hlen Hr. unfold step3. apply length_every3; [|done].
  rewrite length_drop. lia.
Qed.

(** X12: a frame that passes the sanity test but ends in an incomplete
    triplet (its number of rows, channel 4 rows apart, is above 2 and no
    multiple of 3) is not filtered: the update of the mask fails on the
    shapes and the call raises NumPy's broadcast [ValueError]. *)
Theorem select_incomplete_triplet (frame : DataFrame)
    (max_saturated max_samples saturation_value : Z) :
  let checked := rows (without_channel4 frame) in
  aligned (channel <$> checked) ->
  raster_sorted (raster_number <$> checked) ->
  (2 < length checked)%nat -> (length checked mod 3 <> 0)%nat ->
  select_eaarla_channel frame max_saturated max_samples saturation_value
    = Raises shape_mismatch \/
  select_eaarla_channel frame max_saturated max_samples saturation_value
    = Raises cannot_assign.
Proof.
  cbv zeta. intros Ha Hr Hn Hmod. rewrite select_unfold. cbv zeta.
  replace (sanity _ _) with true by (symmetry; by apply sanity_spec).
  set (sat := check_saturation _ _ _ <$> _).
  assert (length sat = length (rows (without_channel4 frame))) as Hlen
    by (subst sat; by rewrite !length_fmap).
  assert (keep_mask sat = Raises shape_mismatch \/ keep_mask sat = Raises cannot_assign)
    as [-> | ->]; [|by left|by right].
  clear Ha Hr. revert Hn Hmod. rewrite <- Hlen. clear Hlen. intros Hn Hmod.
  unfold keep_mask. cbv zeta. set (keep0 := logical_not sat).
  assert (length keep0 = length sat) as H0 by apply length_fmap.
  assert (exists k r, length keep0 = (3 * k + r)%nat /\ (1 <= k)%nat /\ (r = 1 \/ r = 2)%nat)
    as (k & r & Hk & Hk1 & Hr).
  { exists (length sat / 3)%nat, (length sat mod 3)%nat.
    pose proof (Nat.div_mod_eq (length sat) 3).
    pose proof (Nat.mod_upper_bound (length sat) 3 ltac:(lia)).
    rewrite H0. repeat split; lia. }
  assert (length (step3 0 keep0) = S k) as L0.
  { rewrite (length_step3 0 k r) by lia. destruct Hr as [-> | ->]; cbn; lia. }
  destruct Hr as [-> | ->].
  - assert (length (step3 1 keep0) = k) as L1.
    { rewrite (length_step3 1 k 0) by lia. cbn. lia. }
    unfold logical_and, logical_not. rewrite length_fmap, L0, L1.
    rewrite decide_False by lia.
    destruct (step3 0 keep0) as [|a0 [|a1 l0]]; [done|cbn in L0; lia|].
    cbn [fmap list_fmap].
    destruct (step3 1 keep0) as [|b0 [|b1 l1]] eqn:E1; [cbn in L1; lia| |by left].
    cbn [mbind outcome_bind].
    rewrite setitem_step3_mismatch by (rewrite ?E1; cbn; lia). by right.
  - assert (length (step3 1 keep0) = S k) as L1.
    { rewrite (length_step3 1 k 1) by lia. cbn. lia. }
    rewrite logical_and_same_length by (unfold logical_not; rewrite length_fmap; lia).
    cbn [mbind outcome_bind].
    destruct (setitem_step3 1 keep0 _) as [keep1|e] eqn:E1; cbn [mbind outcome_bind].
    + apply setitem_step3_length in E1 as Hl1.
      assert (length (step3 0 keep1) = S k) as L0' by (rewrite (length_step3 0 k 2); cbn; lia).
      assert (length (step3 1 keep1) = S k) as L1' by (rewrite (length_step3 1 k 1); cbn; lia).
      assert (length (step3 2 keep1) = k) as L2' by (rewrite (length_step3 2 k 0); cbn; lia).
      rewrite logical_and_same_length by (unfold logical_not; rewrite !length_fmap; lia).
      cbn [mbind outcome_bind].
      rewrite setitem_step3_mismatch
        by (rewrite length_zip_with; unfold logical_not; rewrite !length_fmap; lia).
      by right.
    + right. f_equal. exact (setitem_step3_raises _ _ _ _ E1).
Qed.

Lemma select_incomplete_triplet_witness :
  let r (ch : Z) := mkRecord 1 1 ch [0; 1; 0] [] 0 0 0 in
  let frame := mkFrame [r 1; r 2; r 3; r 1; r 2] ∅ in
  select_eaarla_channel frame 5 12 250 = Raises shape_mismatch \/
  select_eaarla_channel frame 5 12 250 = Raises cannot_assign.
Proof.
  intros r frame.
  apply (select_incomplete_triplet frame 5 12 250).
  - apply aligned_checks. by repeat split.
  - by apply raster_check.
  - cbn. lia.
  - by cbn.
Defined.

(** ** Saturation detector: thresholds *)

Lemma sum_flags_nonneg (saturation_value : Z) (w : list Z) :
  0 <= sum ((fun x => Z.b2z (saturation_value <=? x)) <$> w).
Proof. rewrite sum_flags. lia. Qed.

Lemma sum_flags_le_length (saturation_value : Z) (w : list Z) :
  sum ((fun x => Z.b2z (saturation_value <=? x)) <$> w) <= Z.of_nat (length w).
Proof.
  rewrite sum_flags. apply inj_le. apply sublist_length, sublist_filter.
Qed.

Lemma sum_flags_mono (sv sv' : Z) (n n' : nat) (w : list Z) :
  sv' <= sv -> (n <= n')%nat ->
  sum ((fun x => Z.b2z (sv <=? x)) <$> take n w)
  <= sum ((fun x => Z.b2z (sv' <=? x)) <$> take n' w).
Proof.
  intros Hsv. revert n n'. induction w as [|x w IH]; intros n n' Hn.
  - by rewrite !take_nil.
  - destruct n as [|n]; [rewrite take_0; apply sum_flags_nonneg|].
    destruct n' as [|n']; [lia|]. cbn [take]. rewrite !fmap_cons, !sum_cons.
    specialize (IH n n' ltac:(lia)).
    destruct (Z.leb_spec sv x), (Z.leb_spec sv' x); cbn [Z.b2z]; lia.
Qed.

(** X13: the verdict of the saturation detector is monotone in its three
    parameters: a waveform that is saturated stays saturated when fewer
    saturated samples are required, when the saturation value is lowered, or
    when a longer head window is examined.  At the extremes, nothing is
    saturated when more saturated samples are required than the window (or
    the waveform) holds, and everything is when none is required. *)
Theorem check_saturation_monotone (max_saturated max_saturated' : Z)
    (head_window head_window' : nat) (saturation_value saturation_value' : Z)
    (w : list Z) :
  (max_saturated' <= max_saturated -> saturation_value' <= saturation_value ->
   (head_window <= head_window')%nat ->
   check_saturation max_saturated (Z.of_nat head_window) saturation_value w = true ->
   check_saturation max_saturated' (Z.of_nat head_window') saturation_value' w = true) /\
  (Z.of_nat (Nat.min head_window (length w)) < max_saturated ->
   check_saturation max_saturated (Z.of_nat head_window) saturation_value w = false) /\
  (max_saturated <= 0 ->
   check_saturation max_saturated (Z.of_nat head_window) saturation_value w = true).
Proof.
  unfold check_saturation. rewrite !slice_to_nat. repeat split.
  - intros Hm Hs Hw H. apply Z.leb_le in H. apply Z.leb_le.
    pose proof (sum_flags_mono saturation_value saturation_value'
                  head_window head_window' w Hs Hw). lia.
  - intros H. apply Z.leb_gt.
    pose proof (sum_flags_le_length saturation_value (take head_window w)) as Hl.
    rewrite length_take in Hl. lia.
  - intros H. apply Z.leb_le.
    pose proof (sum_flags_nonneg saturation_value (take head_window w)). lia.
Qed.

(** ** Channel selector: further properties *)

Lemma without_channel4_idemp (frame : DataFrame) :
  without_channel4 (without_channel4 frame) = without_channel4 frame.
Proof.
  unfold without_channel4. fold (frame_filter (fun r => negb (channel r =? 4)) frame).
  fold (frame_filter (fun r => negb (channel r =? 4))
          (frame_filter (fun r => negb (channel r =? 4)) frame)).
  rewrite frame_filter_compose. apply frame_filter_ext. intros r. apply andb_diag.
Qed.

(** X14: it makes no difference whether the caller has removed the channel 4
    rows already: the selector gives the same outcome on a frame and on the
    frame without its channel 4 rows. *)
Theorem select_after_channel4_removal (frame : DataFrame)
    (max_saturated max_samples saturation_value : Z) :
  select_eaarla_channel (without_channel4 frame) max_saturated max_samples saturation_value
  = select_eaarla_channel frame max_saturated max_samples saturation_value.
Proof. rewrite !select_unfold. cbv zeta. by rewrite without_channel4_idemp. Qed.

Lemma raster_sorted_strongly (l : list Z) : raster_sorted l <-> StronglySorted Z.le l.
Proof.
  split.
  - intros H. apply Sorted_StronglySorted; [intros x y z; lia|].
    induction l as [|x l IH]; [constructor|]. constructor.
    + apply IH. intros i a b Ha Hb. exact (H (S i) a b Ha Hb).
    + destruct l as [|y l]; constructor. exact (H 0%nat x y eq_refl eq_refl).
  - intros H. induction H as [|x l Hl IH Hx]; intros i a b Ha Hb; [done|].
    destruct i as [|i]; [|exact (IH i a b Ha Hb)].
    injection Ha as <-. cbn in Hb.
    eapply Forall_lookup_1 in Hx; [exact Hx|exact Hb].
Qed.

Lemma sublist_StronglySorted {A} (R : relation A) (l1 l2 : list A) :
  l1 `sublist_of` l2 -> StronglySorted R l2 -> StronglySorted R l1.
Proof.
  induction 1 as [|x l1 l2 Hs IH|x l1 l2 Hs IH]; intros H; [done| |].
  - apply StronglySorted_inv in H as [H Hx]. constructor; [auto|].
    by eapply sublist_Forall.
  - apply StronglySorted_inv in H as [H _]. auto.
Qed.

Section SelectorShape.
Variables max_saturated max_samples saturation_value : Z.

(** X15: on a frame that meets the precondition the output has exactly one
    row per triplet (a third of the rows that are not of channel 4), every
    row is of channel 1, 2 or 3, and the raster numbers of the output are
    still in non-decreasing order. *)
Theorem select_output_shape (frame : DataFrame)
    (ts : list (record * record * record)) :
  grouped frame ts ->
  exists out,
    select_eaarla_channel frame max_saturated max_samples saturation_value
      = Returns out /\
    (3 * length (rows out) = length (rows (without_channel4 frame)))%nat /\
    Forall (fun r => channel r = 1 \/ channel r = 2 \/ channel r = 3) (rows out) /\
    raster_sorted (raster_number <$> rows out).
Proof.
  intros H. rewrite (select_grouped _ _ _ frame ts H). eexists; split; [done|].
  destruct H as (Hrows & Hchan & Hsorted). cbn [rows getitem_mask].
  rewrite rows_without_channel4, Hrows, mask_select_policy. repeat split.
  - rewrite length_fmap, length_triplet_rows. lia.
  - clear Hrows Hsorted. induction Hchan as [|[[r1 r2] r3] ts' (H1 & H2 & H3) _ IH];
      [constructor|].
    rewrite fmap_cons. constructor; [|exact IH]. cbn in *.
    destruct (negb _); [tauto|]. destruct (negb _); tauto.
  - apply raster_sorted_strongly. apply raster_sorted_strongly in Hsorted.
    eapply sublist_StronglySorted; [|exact Hsorted].
    apply fmap_sublist. apply choose_sublist.
Qed.

(** X16: the two degenerate settings of the detector decide the selection
    on their own.  When no saturated sample is required
    ([max_saturated <= 0]) every waveform counts as saturated and channel 3
    of every triplet is kept; when more are required than the head window
    holds, none does and channel 1 of every triplet is kept. *)
Theorem select_degenerate_settings (frame : DataFrame)
    (ts : list (record * record * record)) (head_window : nat) :
  grouped frame ts ->
  (max_saturated <= 0 ->
   exists out,
     select_eaarla_channel frame max_saturated (Z.of_nat head_window) saturation_value
       = Returns out /\
     rows out = (fun t => t.2) <$> ts) /\
  (Z.of_nat head_window < max_saturated ->
   exists out,
     select_eaarla_channel frame max_saturated (Z.of_nat head_window) saturation_value
       = Returns out /\
     rows out = (fun t => t.1.1) <$> ts).
Proof.
  intros H. rewrite (select_grouped _ _ _ frame ts H).
  destruct H as (Hrows & _).
  split; intros Hm; (eexists; split; [done|]); cbn [rows getitem_mask];
    rewrite rows_without_channel4, Hrows, mask_select_policy;
    apply list_fmap_ext;
    intros _ [[r1 r2] r3] _; unfold choose, saturated, check_saturation;
    rewrite !slice_to_nat.
  - pose proof (sum_flags_nonneg saturation_value (take head_window (rx r1))).
    pose proof (sum_flags_nonneg saturation_value (take head_window (rx r2))).
    set (c1 := sum (_ <$> take head_window (rx r1))) in *.
    set (c2 := sum (_ <$> take head_window (rx r2))) in *.
    by destruct (Z.leb_spec max_saturated c1), (Z.leb_spec max_saturated c2); try lia.
  - pose proof (sum_flags_le_length saturation_value (take head_window (rx r1))) as Hl.
    rewrite length_take in Hl.
    set (c1 := sum (_ <$> take head_window (rx r1))) in *.
    by destruct (Z.leb_spec max_saturated c1); try lia.
Qed.
End SelectorShape.

Lemma select_output_shape_witness :
  let r (raster ch : Z) (w : list Z) := mkRecord raster 1 ch w [] 0 0 0 in
  let hot := [255; 255; 255; 255; 255; 255] in
  let t1 := (r 1 1 hot, r 1 2 [3; 9; 4], r 1 3 [1; 2; 1]) in
  let t2 := (r 2 1 [5; 60; 7], r 2 2 [1; 6; 1], r 2 3 [0; 1; 0]) in
  let frame := mkFrame (r 1 4 [9; 9] :: triplet_rows [t1; t2]) ∅ in
  grouped frame [t1; t2] /\
  exists out,
    select_eaarla_channel frame 5 12 250 = Returns out /\
    (3 * length (rows out) = length (rows (without_channel4 frame)))%nat /\
    Forall (fun r => channel r = 1 \/ channel r = 2 \/ channel r = 3) (rows out) /\
    raster_sorted (raster_number <$> rows out).
Proof.
  cbv zeta.
  match goal with |- ?G /\ _ => assert G as H end.
  { split; [reflexivity|]. split; [by repeat constructor|]. by apply raster_check. }
  split; [exact H|]. exact (select_output_shape 5 12 250 _ _ H).
Defined.

Lemma select_degenerate_settings_witness :
  let r (raster ch : Z) (w : list Z) := mkRecord raster 1 ch w [] 0 0 0 in
  let t1 := (r 1 1 [255; 255], r 1 2 [3; 9; 4], r 1 3 [1; 2; 1]) in
  let frame := mkFrame (triplet_rows [t1]) ∅ in
  grouped frame [t1] /\
  (0 <= 0 ->
   exists out,
     select_eaarla_channel frame 0 (Z.of_nat 12) 250 = Returns out /\
     rows out = (fun t => t.2) <$> [t1]) /\
  (Z.of_nat 12 < 0 ->
   exists out,
     select_eaarla_channel frame 0 (Z.of_nat 12) 250 = Returns out /\
     rows out = (fun t => t.1.1) <$> [t1]).
Proof.
  cbv zeta.
  match goal with |- ?G /\ _ => assert G as H end.
  { split; [reflexivity|]. split; [by repeat constructor|]. by apply raster_check. }
  split; [exact H|]. exact (select_degenerate_settings 0 250 _ _ 12%nat H).
Defined.

(** ** Position deriver: columns and errors *)

Lemma pos_name_tx (prefix : string) : prefix +:+ "_pos" = "tx_pos" -> prefix = "tx".
Proof.
  destruct prefix as [|a [|b [|c p]]]; cbn; try discriminate.
  - by intros [= -> ->].
  - intros [= _ _ _ H]. exfalso.
    destruct p as [|d [|e [|f [|g p]]]]; cbn in H; discriminate.
Qed.

Lemma string_last_app (s t : string) :
  t <> EmptyString -> string_last (s +:+ t) = string_last t.
Proof.
  intros Ht. induction s as [|a s IH]; [done|].
  change (string_last (String a (s +:+ t)) = string_last t).
  destruct (s +:+ t) eqn:E; [by destruct s, t|]. by rewrite <- IH.
Qed.

Lemma range_name_not_pos (prefix prefix' : string) :
  prefix +:+ "_range" <> prefix' +:+ "_pos".
Proof.
  intros H. apply (f_equal string_last) in H.
  rewrite !string_last_app in H by done. done.
Qed.

Lemma centroid_no_sample_raises (w : list Z) (l : Z) :
  w <> [] -> l < 0 -> Z.of_nat (length w) + l <= 0 ->
  centroid w (Some l) = Raises IndexError.
Proof.
  intros Hw Hl Hlen. rewrite centroid_unfold.
  destruct (decide _) as [E|_]; [by destruct w|].
  cbn [truthy default from_option id].
  destruct (Z.eqb_spec l 0); [lia|]. cbn [negb]. unfold slice_to.
  destruct (Z.leb_spec 0 l); [lia|].
  replace (Z.to_nat _) with 0%nat by lia. by rewrite take_0.
Qed.

Lemma centroid_array_raises (wfs : list (list Z)) (limit : option Z) (w : list Z) (e : exn) :
  w ∈ wfs -> centroid w limit = Raises e ->
  centroid_array wfs limit = Raises IndexError.
Proof.
  intros Hin Hw. induction wfs as [|w' ws IH]; [by apply elem_of_nil in Hin|].
  rewrite centroid_array_cons.
  destruct (centroid w' limit) as [c|e'] eqn:Ec; cbn [mbind outcome_bind].
  - apply elem_of_cons in Hin as [->|Hin]; [congruence|]. by rewrite IH.
  - by apply centroid_raises_IndexError in Ec as ->.
Qed.

Lemma getitem_missing (frame : DataFrame) (name : string) :
  added frame !! name = None -> getitem frame name = Raises (KeyError name).
Proof. intros H. unfold getitem. by rewrite H. Qed.

Section DeriverErrors.
Context {Ops : Type}.
Variable unaligned : DataFrame -> string -> list Q -> outcome DataFrame.
Variable project_mirror : DataFrame -> Ops -> DataFrame.
Variable target_range : list Q -> list Q -> list Q -> list Z -> Ops -> list Q.
Variable project_point : DataFrame -> Ops -> list Q -> string -> DataFrame.

(** X17: [add_fs] needs the transmit centroids: on a frame that has no
    [tx_pos] column it raises [KeyError] for ['tx_pos'] (unless the prefix is
    ["tx"], which makes [<prefix>_pos] that very column), for every limit
    that is absent or a sample count. *)
Theorem add_fs_missing_tx_pos (frame : DataFrame) (ops : Ops) (prefix : string)
    (limit : option nat) :
  added frame !! "tx_pos" = None -> prefix <> "tx" ->
  add_fs unaligned target_range project_point frame ops prefix (Z.of_nat <$> limit)
  = Raises (KeyError "tx_pos").
Proof.
  intros Hno Hp. unfold add_fs.
  destruct (centroid_array_returns rx limit frame) as (pos & -> & Hpos).
  cbn [mbind outcome_bind].
  rewrite setitem_same_length by (symmetry; eapply Forall2_length, Hpos).
  cbn [mbind outcome_bind].
  by rewrite (getitem_missing _ "tx_pos")
    by (cbn [added with_column]; rewrite lookup_insert_ne;
        [done|intros H; by apply Hp, pos_name_tx]).
Qed.

(** X18: a negative limit that leaves no sample of some receive waveform
    stops [add_fs] with the [IndexError] of [centroid], before any column is
    written or the projector is called. *)
Theorem add_fs_negative_limit (frame : DataFrame) (ops : Ops) (prefix : string)
    (l : Z) (r : record) :
  r ∈ rows frame -> rx r <> [] -> l < 0 -> Z.of_nat (length (rx r)) + l <= 0 ->
  add_fs unaligned target_range project_point frame ops prefix (Some l) = Raises IndexError.
Proof.
  intros Hin Hne Hl Hlen. unfold add_fs.
  rewrite (centroid_array_raises (rx <$> rows frame) (Some l) (rx r) IndexError).
  - done.
  - by apply list_elem_of_fmap_2.
  - by apply centroid_no_sample_raises.
Qed.

(** X20: with a prefix other than ["tx"], [add_fs] computes the range from
    the frame's own [tx_pos] column, and the frame it hands to the point
    projector is the input with two columns set, [<prefix>_pos] and
    [<prefix>_range]: the rows and every other added column are as they
    were, and every column still has one value per row if it had. *)
Theorem add_fs_sets_two_columns (frame : DataFrame) (ops : Ops) (prefix : string)
    (limit : option nat) (tx_pos : list Q) :
  (forall rng tx_pos pos chan o,
     length (target_range rng tx_pos pos chan o) = length rng) ->
  added frame !! "tx_pos" = Some tx_pos -> prefix <> "tx" ->
  exists pos frame',
    centroids_of rx (Z.of_nat <$> limit) frame pos /\
    let rng := target_range (range <$> rows frame) tx_pos pos
                            (channel <$> rows frame) ops in
    add_fs unaligned target_range project_point frame ops prefix (Z.of_nat <$> limit)
      = Returns (project_point frame' ops rng prefix) /\
    rows frame' = rows frame /\
    added frame' !! (prefix +:+ "_pos") = Some pos /\
    added frame' !! (prefix +:+ "_range") = Some rng /\
    (forall name, name <> prefix +:+ "_pos" -> name <> prefix +:+ "_range" ->
                  added frame' !! name = added frame !! name) /\
    (columns_aligned frame -> columns_aligned frame').
Proof.
  intros Hlen Htx Hp.
  destruct (centroid_array_returns rx limit frame) as (pos & Harr & Hpos).
  assert (length pos = length (rows frame)) as Hlpos
    by (symmetry; eapply Forall2_length, Hpos).
  set (rng := target_range (range <$> rows frame) tx_pos pos (channel <$> rows frame) ops).
  exists pos, (with_column (with_column frame (prefix +:+ "_pos") pos)
                 (prefix +:+ "_range") rng).
  split; [exact Hpos|]. cbv zeta. fold rng. split; [|split; [done|]].
  - unfold add_fs. rewrite Harr. cbn [mbind outcome_bind].
    rewrite setitem_same_length by done. cbn [mbind outcome_bind].
    rewrite (getitem_present (with_column frame (prefix +:+ "_pos") pos) "tx_pos" tx_pos)
      by (cbn [added with_column]; rewrite lookup_insert_ne;
          [done|intros H; by apply Hp, pos_name_tx]).
    cbn [mbind outcome_bind]. rewrite getitem_with_column.
    cbn [mbind outcome_bind rows with_column]. fold rng.
    rewrite setitem_same_length
      by (cbn [rows]; subst rng; by rewrite Hlen, length_fmap).
    cbn [mbind outcome_bind]. by rewrite getitem_with_column.
  - cbn [added with_column]. split; [|split; [|split]].
    + rewrite lookup_insert_ne; [apply lookup_insert_eq|apply range_name_not_pos].
    + apply lookup_insert_eq.
    + intros name H1 H2. by rewrite !lookup_insert_ne.
    + intros Ha name col. cbn [rows added with_column]. rewrite !lookup_insert.
      repeat case_decide.
      * intros [= <-]. subst rng. by rewrite Hlen, length_fmap.
      * by intros [= <-].
      * apply Ha.
Qed.

(** X21: with the prefix ["tx"] the receive centroids are written over the
    [tx_pos] column before the range is computed, so the range operation is
    given the receive centroids in both places, whether or not the frame had
    transmit centroids. *)
Theorem add_fs_prefix_tx (frame : DataFrame) (ops : Ops) (limit : option nat) :
  (forall rng tx_pos pos chan o,
     length (target_range rng tx_pos pos chan o) = length rng) ->
  exists pos,
    centroids_of rx (Z.of_nat <$> limit) frame pos /\
    let rng := target_range (range <$> rows frame) pos pos (channel <$> rows frame) ops in
    add_fs unaligned target_range project_point frame ops "tx" (Z.of_nat <$> limit)
    = Returns (project_point
                 (with_column (with_column frame "tx_pos" pos) "tx_range" rng)
                 ops rng "tx").
Proof.
  intros Hlen.
  destruct (centroid_array_returns rx limit frame) as (pos & Harr & Hpos).
  exists pos. split; [exact Hpos|]. cbv zeta.
  unfold add_fs. rewrite Harr. cbn [mbind outcome_bind].
  change ("tx" +:+ "_pos") with "tx_pos". change ("tx" +:+ "_range") with "tx_range".
  rewrite setitem_same_length by (symmetry; eapply Forall2_length, Hpos).
  cbn [mbind outcome_bind]. rewrite !getitem_with_column.
  cbn [mbind outcome_bind rows with_column].
  rewrite setitem_same_length by (cbn [rows]; by rewrite Hlen, length_fmap).
  cbn [mbind outcome_bind]. by rewrite getitem_with_column.
Qed.

(** X22: [add_mirror] followed by [add_fs] gives the range operation the
    transmit centroids computed with no limit and the receive centroids
    computed with the limit, provided the mirror projector leaves the rows
    and the [tx_pos] column as they are, the prefix is not ["tx"] and the
    range operation answers one range per row; the call raises nothing. *)
Theorem add_mirror_then_fs (frame : DataFrame) (ops : Ops) (prefix : string)
    (limit : option nat) :
  (forall f o, rows (project_mirror f o) = rows f /\
               added (project_mirror f o) !! "tx_pos" = added f !! "tx_pos") ->
  (forall rng tx_pos pos chan o,
     length (target_range rng tx_pos pos chan o) = length rng) ->
  prefix <> "tx" ->
  exists tx_pos pos frame',
    centroids_of tx None frame tx_pos /\
    centroids_of rx (Z.of_nat <$> limit) frame pos /\
    let rng := target_range (range <$> rows frame) tx_pos pos
                            (channel <$> rows frame) ops in
    (frame ← add_mirror unaligned project_mirror frame ops;
     add_fs unaligned target_range project_point frame ops prefix (Z.of_nat <$> limit))
    = Returns (project_point frame' ops rng prefix) /\
    added frame' !! (prefix +:+ "_range") = Some rng.
Proof.
  intros Hm Hlen Hp.
  destruct (centroid_array_returns tx None frame) as (tx_pos & Harr & Htx).
  cbn [fmap option_fmap option_map] in Harr, Htx.
  unfold add_mirror. rewrite Harr. cbn [mbind outcome_bind].
  rewrite setitem_same_length by (symmetry; eapply Forall2_length, Htx).
  cbn [mbind outcome_bind].
  set (f1 := project_mirror (with_column frame "tx_pos" tx_pos) ops).
  destruct (Hm (with_column frame "tx_pos" tx_pos) ops) as [Hrows Hcol].
  fold f1 in Hrows, Hcol. cbn [rows added with_column] in Hrows, Hcol.
  rewrite lookup_insert_eq in Hcol.
  destruct (centroid_array_returns rx limit f1) as (pos & Harr' & Hpos).
  assert (length pos = length (rows f1)) as Hlpos
    by (symmetry; eapply Forall2_length, Hpos).
  exists tx_pos, pos.
  eexists. split; [exact Htx|]. split.
  { unfold centroids_of in *. by rewrite <- Hrows. }
  cbv zeta. rewrite <- Hrows. split.
  - unfold add_fs. rewrite Harr'. cbn [mbind outcome_bind].
    rewrite setitem_same_length by done. cbn [mbind outcome_bind].
    rewrite (getitem_present (with_column f1 (prefix +:+ "_pos") pos) "tx_pos" tx_pos)
      by (cbn [added with_column]; rewrite lookup_insert_ne;
          [done|intros H; by apply Hp, pos_name_tx]).
    cbn [mbind outcome_bind]. rewrite getitem_with_column.
    cbn [mbind outcome_bind rows with_column].
    rewrite setitem_same_length by (cbn [rows]; by rewrite Hlen, length_fmap).
    cbn [mbind outcome_bind]. rewrite getitem_with_column. reflexivity.
  - cbn [added with_column]. apply lookup_insert_eq.
Qed.
End DeriverErrors.

Lemma add_fs_missing_tx_pos_witness :
  let unaligned := as_array in
  let target_range (rng tx_pos pos : list Q) (chan : list Z) (_ : unit) := rng in
  let project_point (frame : DataFrame) (_ : unit) (_ : list Q) (_ : string) := frame in
  let frame := mkFrame [mkRecord 1 1 1 [0; 10; 0] [0; 0; 10] 0 0 5] ∅ in
  added frame !! "tx_pos" = None /\ "fs" <> "tx" /\
  add_fs unaligned target_range project_point frame () "fs" (Z.of_nat <$> Some 12%nat)
  = Raises (KeyError "tx_pos").
Proof.
  intros unaligned target_range project_point frame.
  assert (added frame !! "tx_pos" = None) as H1 by apply lookup_empty.
  assert ("fs" <> "tx") as H2 by done.
  split; [exact H1|]. split; [exact H2|].
  exact (add_fs_missing_tx_pos unaligned target_range project_point frame () "fs" (Some 12%nat) H1 H2).
Defined.

Lemma add_fs_negative_limit_witness :
  let unaligned := as_array in
  let target_range (rng tx_pos pos : list Q) (chan : list Z) (_ : unit) := rng in
  let project_point (frame : DataFrame) (_ : unit) (_ : list Q) (_ : string) := frame in
  let r := mkRecord 1 1 1 [0; 10; 0] [0; 0; 10] 0 0 5 in
  let frame := mkFrame [r] {["tx_pos" := [2%Q]]} in
  add_fs unaligned target_range project_point frame () "fs" (Some (-3)) = Raises IndexError.
Proof.
  intros unaligned target_range project_point r frame.
  apply (add_fs_negative_limit unaligned target_range project_point frame () "fs" (-3) r).
  - apply list_elem_of_singleton. reflexivity.
  - done.
  - lia.
  - cbn. lia.
Defined.

Lemma add_fs_sets_two_columns_witness :
  let unaligned := as_array in
  let target_range (rng tx_pos pos : list Q) (chan : list Z) (_ : unit) :=
    (fun r => r + 1)%Q <$> rng in
  let project_point (frame : DataFrame) (_ : unit) (_ : list Q) (_ : string) := frame in
  let frame := mkFrame [mkRecord 1 1 1 [0; 10; 0] [0; 0; 10] 0 0 5] {["tx_pos" := [2%Q]]} in
  exists pos frame',
    centroids_of rx (Z.of_nat <$> Some 12%nat) frame pos /\
    let rng := target_range (range <$> rows frame) [2%Q] pos (channel <$> rows frame) () in
    add_fs unaligned target_range project_point frame () "fs" (Z.of_nat <$> Some 12%nat)
      = Returns (project_point frame' () rng "fs") /\
    rows frame' = rows frame /\
    added frame' !! ("fs" +:+ "_pos") = Some pos /\
    added frame' !! ("fs" +:+ "_range") = Some rng /\
    (forall name, name <> "fs" +:+ "_pos" -> name <> "fs" +:+ "_range" ->
                  added frame' !! name = added frame !! name) /\
    (columns_aligned frame -> columns_aligned frame').
Proof.
  intros unaligned target_range project_point frame.
  apply (add_fs_sets_two_columns unaligned target_range project_point frame () "fs" (Some 12%nat) [2%Q]).
  - intros. apply length_fmap.
  - apply lookup_singleton_eq.
  - done.
Defined.

Lemma add_fs_prefix_tx_witness :
  let unaligned := as_array in
  let target_range (rng tx_pos pos : list Q) (chan : list Z) (_ : unit) :=
    (fun r => r + 1)%Q <$> rng in
  let project_point (frame : DataFrame) (_ : unit) (_ : list Q) (_ : string) := frame in
  let frame := mkFrame [mkRecord 1 1 1 [0; 10; 0] [0; 0; 10] 0 0 5] ∅ in
  exists pos,
    centroids_of rx (Z.of_nat <$> Some 12%nat) frame pos /\
    let rng := target_range (range <$> rows frame) pos pos (channel <$> rows frame) () in
    add_fs unaligned target_range project_point frame () "tx" (Z.of_nat <$> Some 12%nat)
    = Returns (project_point
                 (with_column (with_column frame "tx_pos" pos) "tx_range" rng)
                 () rng "tx").
Proof.
  intros unaligned target_range project_point frame.
  apply (add_fs_prefix_tx unaligned target_range project_point frame () (Some 12%nat)).
  intros. apply length_fmap.
Defined.

Lemma add_mirror_then_fs_witness :
  let unaligned := as_array in
  let project_mirror (frame : DataFrame) (_ : unit) :=
    with_column frame "mir_x" ((fun _ => 0%Q) <$> rows frame) in
  let target_range (rng tx_pos pos : list Q) (chan : list Z) (_ : unit) :=
    (fun r => r + 1)%Q <$> rng in
  let project_point (frame : DataFrame) (_ : unit) (_ : list Q) (_ : string) := frame in
  let frame := mkFrame [mkRecord 1 1 1 [0; 10; 0] [0; 0; 10] 0 0 5] ∅ in
  exists tx_pos pos frame',
    centroids_of tx None frame tx_pos /\
    centroids_of rx (Z.of_nat <$> Some 12%nat) frame pos /\
    let rng := target_range (range <$> rows frame) tx_pos pos (channel <$> rows frame) () in
    (frame ← add_mirror unaligned project_mirror frame ();
     add_fs unaligned target_range project_point frame () "fs" (Z.of_nat <$> Some 12%nat))
    = Returns (project_point frame' () rng "fs") /\
    added frame' !! ("fs" +:+ "_range") = Some rng.
Proof.
  intros unaligned project_mirror target_range project_point frame.
  apply (add_mirror_then_fs unaligned project_mirror target_range project_point frame () "fs"
           (Some 12%nat)).
  - intros f o. split; [done|]. unfold project_mirror. cbn [added with_column].
    by rewrite lookup_insert_ne.
  - intros. apply length_fmap.
  - done.
Defined.
